(** * Local RANSAC line-segment extraction (Assets/AnalyzeLines.py)

    A shallow embedding of [fit_line_segment] and [run_local_ransac] and the
    properties of the extraction loop.

    Numbers are IEEE binary64 values, as in NumPy's float64 arrays: Rocq's
    primitive [float].  An [n x 3] array is a list of rows.  The two library
    calls whose results are not determined by the program text are taken as
    they come: NumPy's global random state is a class [RandomState] (a draw
    below the bound), and LAPACK's decomposition behind [np.linalg.svd] is a
    section variable.  Python exceptions are results ([Raise]); [print] is
    left out. *)

From Stdlib Require Import Floats ZArith List Lia Bool Arith Permutation.
From Stdlib Require Uint63.
Import ListNotations.

Set Warnings "-inexact-float".
Set Implicit Arguments.

(* ================================================================== *)
(** ** Exceptions *)

(** The Python exceptions the function can raise. *)
Inductive exn : Type :=
| ValueError    (* np.random.randint(0), np.min / np.max of an empty array *)
| LinAlgError.  (* np.linalg.svd did not converge *)

(** Outcome of a computation.  [OutOfFuel] is the embedding's own: the fuel of
    the loop ran out.  It is shown never to happen ([while_loop_fuel]). *)
Inductive result (A : Type) : Type :=
| Ok (a : A)
| Raise (e : exn)
| OutOfFuel.

Arguments Ok {A} a.
Arguments Raise {A} e.
Arguments OutOfFuel {A}.

Definition bind {A B : Type} (m : result A) (k : A -> result B) : result B :=
  match m with
  | Ok a => k a
  | Raise e => Raise e
  | OutOfFuel => OutOfFuel
  end.

Notation "x <- m ;; k" := (bind m (fun x => k))
  (at level 61, m at next level, right associativity).
Notation "' pat <- m ;; k" := (bind m (fun x => match x with pat => k end))
  (at level 61, pat pattern, m at next level, right associativity).

(* ================================================================== *)
(** ** The NumPy fragment the program uses *)

Module Np.

Local Open Scope float_scope.

(** One row of an [n x 3] float64 array. *)
Record vec3 : Type := mk3 { vx : float; vy : float; vz : float }.

Definition zero3 : vec3 := mk3 0 0 0.

(** [a - b], [a + b] on rows, [a * s] with a scalar (broadcasting). *)
Definition sub3 (a b : vec3) : vec3 :=
  mk3 (vx a - vx b) (vy a - vy b) (vz a - vz b).

Definition add3 (a b : vec3) : vec3 :=
  mk3 (vx a + vx b) (vy a + vy b) (vz a + vz b).

Definition scale3 (a : vec3) (s : float) : vec3 :=
  mk3 (vx a * s) (vy a * s) (vz a * s).

(** [np.linalg.norm(., axis=1)] on one row: [sqrt(add.reduce(x*x))].  The
    order in which NumPy's reduction loops (and BLAS, for [dot]) add the
    three terms is taken left to right, here and below; no property proved
    in this file depends on it. *)
Definition norm (a : vec3) : float :=
  PrimFloat.sqrt (vx a * vx a + vy a * vy a + vz a * vz a).

(** [np.cross(a, b)] on one row. *)
Definition cross (a b : vec3) : vec3 :=
  mk3 (vy a * vz b - vz a * vy b)
      (vz a * vx b - vx a * vz b)
      (vx a * vy b - vy a * vx b).

(** [np.dot(a, b)] of a row with a vector. *)
Definition dot (a b : vec3) : float :=
  vx a * vx b + vy a * vy b + vz a * vz b.

(** [float(n)] for a length. *)
Definition of_nat (n : nat) : float :=
  PrimFloat.of_uint63 (Uint63.of_Z (Z.of_nat n)).

(** [np.add.reduce(a, axis=0)]: the first row starts the sum; zeros for an
    empty array. *)
Definition sum0 (a : list vec3) : vec3 :=
  match a with
  | [] => zero3
  | p :: a' => fold_left add3 a' p
  end.

(** [np.mean(a, axis=0)]: the sum divided by the row count (nan for an empty
    array, where NumPy warns and divides zero by zero). *)
Definition mean (a : list vec3) : vec3 :=
  let s := sum0 a in
  let n := of_nat (length a) in
  mk3 (vx s / n) (vy s / n) (vz s / n).

(** [np.where(mask)[0]]: the indices at which the mask holds, ascending. *)
Fixpoint where_from (i : nat) (mask : list bool) : list nat :=
  match mask with
  | [] => []
  | b :: mask' =>
      if b then i :: where_from (S i) mask' else where_from (S i) mask'
  end.

Definition where_ (mask : list bool) : list nat := where_from 0 mask.

(** [a[idx]] with an index array: the rows at those indices, in that order.
    The indices this program uses come from [where_] and are in range. *)
Definition take {A : Type} (d : A) (a : list A) (idx : list nat) : list A :=
  map (fun i => nth i a d) idx.

(** [np.delete(a, i, axis=0)] with an integer in range. *)
Definition delete {A : Type} (a : list A) (i : nat) : list A :=
  firstn i a ++ skipn (S i) a.

(** [np.delete(a, obj, axis=0)] with an index array: a keep-mask is cleared
    at the listed indices and the rows still marked are returned. *)
Fixpoint delete_from {A : Type} (i : nat) (a : list A) (obj : list nat)
  : list A :=
  match a with
  | [] => []
  | x :: a' =>
      if existsb (Nat.eqb i) obj then delete_from (S i) a' obj
      else x :: delete_from (S i) a' obj
  end.

Definition delete_many {A : Type} (a : list A) (obj : list nat) : list A :=
  delete_from 0 a obj.

(** [np.minimum], [np.maximum]: the reduction loops of the ufuncs, which
    keep a nan once it is met. *)
Definition minimum (a b : float) : float :=
  if (a <=? b) || is_nan a then a else b.

Definition maximum (a b : float) : float :=
  if (b <=? a) || is_nan a then a else b.

(** A value that is a number. *)
Definition not_nan (t : float) : Prop := is_nan t = false.

(** [np.min(a)], [np.max(a)]: ValueError on an empty array. *)
Definition min (a : list float) : result float :=
  match a with
  | [] => Raise ValueError
  | x :: a' => Ok (fold_left minimum a' x)
  end.

Definition max (a : list float) : result float :=
  match a with
  | [] => Raise ValueError
  | x :: a' => Ok (fold_left maximum a' x)
  end.

(** The third output of [np.linalg.svd] for an [n x 3] input is a [3 x 3]
    matrix, given by its rows. *)
Definition mat3 : Type := (vec3 * vec3 * vec3)%type.

Definition row0 (m : mat3) : vec3 := fst (fst m).

End Np.

(** NumPy's global random state.  [np.random.randint(high)] with
    [0 < high] returns an integer in [[0, high)] and advances the state. *)
Class RandomState (G : Type) : Type := {
  draw : G -> nat -> nat * G;
  draw_lt : forall g high, 0 < high -> fst (draw g high) < high
}.

(** [np.random.randint(high)]: ValueError when the range is empty. *)
Definition randint {G : Type} `{RandomState G} (g : G) (high : nat)
  : result (nat * G) :=
  if high =? 0 then Raise ValueError else Ok (draw g high).

(* ================================================================== *)
(** ** The program *)

Module Ransac.

Abbreviation point := Np.vec3.
Definition segment : Type := (point * point)%type.

(** Line 32: the iteration cap, a constant local to [run_local_ransac]. *)
Definition max_iterations : nat := 5000.

Section Program.

Context {G : Type} `{RandomState G}.

(** The decomposition routine behind [np.linalg.svd] is NumPy's, outside
    the repository: [svd a] is the [vv] it computes for [a], or [None] when
    it does not converge. *)
Variable svd : list point -> option Np.mat3.

(** [uu, dd, vv = np.linalg.svd(a)]: only [vv] is read; LinAlgError when the
    routine does not converge. *)
Definition linalg_svd (a : list point) : result Np.mat3 :=
  match svd a with
  | Some vv => Ok vv
  | None => Raise LinAlgError
  end.

(** Lines 11-19. *)
Definition fit_line_segment (points : list point) : result (point * point) :=
  let mean := Np.mean points in
  vv <- linalg_svd (map (fun p => Np.sub3 p mean) points) ;;
  let direction := Np.row0 vv in
  Ok (mean, direction).

(** The parameters of [run_local_ransac] (line 21). *)
Variable neighborhood_radius : float.
Variable min_samples : Z.
Variable threshold : float.

(** The variables of the loop (lines 26-33) and the random state the draws
    come from. *)
Record state : Type := mkState {
  points : list point;
  lines : list segment;
  iter_count : nat;
  rng : G
}.

(** Line 44. *)
Definition dists (points : list point) (seed_point : point) : list float :=
  map (fun p => Np.norm (Np.sub3 p seed_point)) points.

(** Line 47. *)
Definition local_indices (points : list point) (seed_point : point)
  : list nat :=
  Np.where_ (map (fun d => (d <? neighborhood_radius)%float)
                 (dists points seed_point)).

(** Lines 60-62. *)
Definition dists_to_line (local_points : list point) (mean direction : point)
  : list float :=
  let vecs := map (fun p => Np.sub3 p mean) local_points in
  let cross_prods := map (fun v => Np.cross v direction) vecs in
  map Np.norm cross_prods.

(** Line 64. *)
Definition inliers_idx (local_points : list point) (mean direction : point)
  : list nat :=
  Np.where_ (map (fun d => (d <? threshold)%float)
                 (dists_to_line local_points mean direction)).

(** Line 72. *)
Definition projections (inlier_points : list point) (mean direction : point)
  : list float :=
  map (fun p => Np.dot (Np.sub3 p mean) direction) inlier_points.

(** Line 35. *)
Definition loop_guard (st : state) : bool :=
  (Z.of_nat (length (points st)) >? min_samples)%Z
  && (iter_count st <? max_iterations).

(** Lines 36-83: one pass through the body of the loop. *)
Definition loop_body (st : state) : result state :=
  let iter_count' := S (iter_count st) in
  '(idx, g) <- randint (rng st) (length (points st)) ;;
  let seed_point := nth idx (points st) Np.zero3 in
  let local_indices := local_indices (points st) seed_point in
  if (Z.of_nat (length local_indices) <? min_samples)%Z then
    Ok (mkState (Np.delete (points st) idx) (lines st) iter_count' g)
  else
    let local_points := Np.take Np.zero3 (points st) local_indices in
    '(mean, direction) <- fit_line_segment local_points ;;
    let inliers_idx := inliers_idx local_points mean direction in
    if (Z.of_nat (length inliers_idx) >=? min_samples)%Z then
      let inlier_points := Np.take Np.zero3 local_points inliers_idx in
      let projections := projections inlier_points mean direction in
      lo <- Np.min projections ;;
      let p_min := Np.add3 mean (Np.scale3 direction lo) in
      hi <- Np.max projections ;;
      let p_max := Np.add3 mean (Np.scale3 direction hi) in
      Ok (mkState
            (Np.delete_many (points st) (Np.take 0 local_indices inliers_idx))
            (lines st ++ [(p_min, p_max)]) iter_count' g)
    else
      Ok (mkState (Np.delete (points st) idx) (lines st) iter_count' g).

(** Line 35: the [while].  The fuel only makes the recursion structural. *)
Fixpoint while_loop (fuel : nat) (st : state) : result state :=
  if loop_guard st then
    match fuel with
    | 0 => OutOfFuel
    | S fuel' => st' <- loop_body st ;; while_loop fuel' st'
    end
  else Ok st.

(** Lines 26-33: the state on entry to the loop. *)
Definition init (g : G) (data : list point) : state :=
  mkState data [] 0 g.

(** The loop from the initial state; [max_iterations] passes are all the
    guard allows. *)
Definition run (g : G) (data : list point) : result state :=
  while_loop max_iterations (init g data).

(** Lines 21-85. *)
Definition run_local_ransac (g : G) (data : list point)
  : result (list segment) :=
  st <- run g data ;; Ok (lines st).


(** *** What one pass does, read off the body

    The random draw of a pass, its neighbourhood and its fit, as functions
    of the state on entry; [removed_indices] is the argument of the one
    [np.delete] the pass reaches (lines 51, 80, 83), and [accepts] tells
    whether it is the one of line 80. *)

Definition seed_index (st : state) : nat :=
  fst (draw (rng st) (length (points st))).

Definition seed_of (st : state) : point :=
  nth (seed_index st) (points st) Np.zero3.

Definition neighbourhood (st : state) : list nat :=
  local_indices (points st) (seed_of st).

Definition local_points_of (st : state) : list point :=
  Np.take Np.zero3 (points st) (neighbourhood st).

Definition is_noise (st : state) : bool :=
  (Z.of_nat (length (neighbourhood st)) <? min_samples)%Z.

Definition enough_inliers (st : state) (mean direction : point) : bool :=
  (Z.of_nat (length (inliers_idx (local_points_of st) mean direction))
   >=? min_samples)%Z.

(** The rows of the pool that line 80 deletes: [local_indices[inliers_idx]]. *)
Definition inlier_rows (st : state) (mean direction : point) : list nat :=
  Np.take 0 (neighbourhood st)
          (inliers_idx (local_points_of st) mean direction).

Definition removed_indices (st : state) : list nat :=
  if is_noise st then [seed_index st]
  else
    match fit_line_segment (local_points_of st) with
    | Ok (mean, direction) =>
        if enough_inliers st mean direction
        then inlier_rows st mean direction
        else [seed_index st]
    | _ => []
    end.

Definition accepts (st : state) : bool :=
  negb (is_noise st) &&
  match fit_line_segment (local_points_of st) with
  | Ok (mean, direction) => enough_inliers st mean direction
  | _ => false
  end.

(** Lines 72-76 on the inlier points of a fit. *)
Definition segment_of (inlier_points : list point) (mean direction : point)
  : result segment :=
  let projections := projections inlier_points mean direction in
  lo <- Np.min projections ;;
  hi <- Np.max projections ;;
  Ok (Np.add3 mean (Np.scale3 direction lo),
      Np.add3 mean (Np.scale3 direction hi)).

(** The segment a pass appends to [lines] (line 76), if it does. *)
Definition emitted (st : state) : option segment :=
  if is_noise st then None
  else
    match fit_line_segment (local_points_of st) with
    | Ok (mean, direction) =>
        if enough_inliers st mean direction then
          match segment_of
                  (Np.take Np.zero3 (local_points_of st)
                           (inliers_idx (local_points_of st) mean direction))
                  mean direction
          with
          | Ok seg => Some seg
          | _ => None
          end
        else None
    | _ => None
    end.

Definition appended (st : state) : list segment :=
  match emitted st with
  | Some seg => [seg]
  | None => []
  end.

(** *** The passes of a run, with the rows of the input they consume

    Beside the pool, [ids] carries for each row of the pool the index that
    row had in the input; every deletion is applied to both.  An event is
    kept for each completed pass: the segment it emitted, if any, and the
    input rows it took out of the pool. *)

Record event : Type := mkEvent {
  ev_segment : option segment;
  ev_rows : list nat
}.

Fixpoint history (fuel : nat) (st : state) (ids : list nat)
  : list event * list nat * state :=
  if loop_guard st then
    match fuel with
    | 0 => ([], ids, st)
    | S fuel' =>
        match loop_body st with
        | Ok st' =>
            let r := removed_indices st in
            let ev := mkEvent (emitted st) (Np.take 0 ids r) in
            let '(evs, ids', st'') :=
              history fuel' st' (Np.delete_many ids r) in
            (ev :: evs, ids', st'')
        | _ => ([], ids, st)
        end
    end
  else ([], ids, st).

(** The segments of the accepting passes, in order. *)
Fixpoint segments_of (evs : list event) : list segment :=
  match evs with
  | [] => []
  | ev :: evs' =>
      match ev_segment ev with
      | Some seg => seg :: segments_of evs'
      | None => segments_of evs'
      end
  end.

(** An event of a run on [data]: it took rows out, one row when it emitted
    nothing, and the rows whose projections span the segment when it emitted
    one. *)
Definition event_on (data : list point) (ev : event) : Prop :=
  ev_rows ev <> []
  /\ match ev_segment ev with
     | None => exists i, ev_rows ev = [i]
     | Some seg =>
         exists mean direction,
           segment_of (Np.take Np.zero3 data (ev_rows ev)) mean direction
           = Ok seg
     end.

(** *** Inputs without neighbours *)

(** Neither point is within the radius of the other, as line 44 and 47
    compute it. *)
Definition apart (p q : point) : bool :=
  negb (Np.norm (Np.sub3 p q) <? neighborhood_radius)%float
  && negb (Np.norm (Np.sub3 q p) <? neighborhood_radius)%float.

Fixpoint isolated (a : list point) : bool :=
  match a with
  | [] => true
  | p :: a' => forallb (apart p) a' && isolated a'
  end.

End Program.

End Ransac.

Import Ransac.

(* ================================================================== *)
(** ** The arrays and the list as objects

    NumPy arrays and Python lists are objects behind references, and two
    names may stand for one object.  The memory holds the objects.
    [a.copy()] and [np.delete(a, ...)] read [a] and return a new array;
    [lines = []] makes a new list and [lines.append(x)] updates that list
    in place; an assignment rebinds a local name.  Beside the objects, the
    memory keeps in order which object each of these operations created,
    read or updated.

    The arrays a pass computes from the pool and drops before the next pass
    ([dists], [local_indices], [local_points], [vecs] ...) are kept as
    values: the arithmetic and [points[local_indices]] build new arrays, and
    [points[idx]] is a view of the pool that is only read. *)

Module Mem.

Definition ref : Type := nat.

Inductive object : Type :=
| Ndarray (a : list point)
| PyList (l : list segment).

Inductive access : Type :=
| Created (r : ref)
| Read (r : ref)
| Updated (r : ref).

Definition ref_of (e : access) : ref :=
  match e with
  | Created r => r
  | Read r => r
  | Updated r => r
  end.

Record mem : Type := mkMem {
  objects : list object;
  accesses : list access
}.

(** The rows of the array behind [r]. *)
Definition array_of (h : list object) (r : ref) : list point :=
  match nth_error h r with
  | Some (Ndarray a) => a
  | _ => []
  end.

(** The items of the list behind [r]. *)
Definition list_of (h : list object) (r : ref) : list segment :=
  match nth_error h r with
  | Some (PyList l) => l
  | _ => []
  end.

(** The objects with [o] in the place of the object behind [r]. *)
Fixpoint store (h : list object) (r : ref) (o : object) : list object :=
  match h, r with
  | [], _ => []
  | _ :: h', 0 => o :: h'
  | x :: h', S r' => x :: store h' r' o
  end.

(** A computation on the memory.  The memory is kept when it raises: what
    was updated before the exception stays updated. *)
Definition M (A : Type) : Type := mem -> mem * result A.

Definition ret {A : Type} (a : A) : M A := fun m => (m, Ok a).

Definition lift {A : Type} (r : result A) : M A := fun m => (m, r).

Definition bindM {A B : Type} (c : M A) (k : A -> M B) : M B :=
  fun m =>
    match c m with
    | (m', Ok a) => k a m'
    | (m', Raise e) => (m', Raise e)
    | (m', OutOfFuel) => (m', OutOfFuel)
    end.

Notation "x <~ c ;; k" := (bindM c (fun x => k))
  (at level 61, c at next level, right associativity).
Notation "' pat <~ c ;; k" := (bindM c (fun x => match x with pat => k end))
  (at level 61, pat pattern, c at next level, right associativity).

(** A new object, behind a reference no object had. *)
Definition new (o : object) : M ref :=
  fun m =>
    let r := length (objects m) in
    (mkMem (objects m ++ [o]) (accesses m ++ [Created r]), Ok r).

(** Reading the array behind [r]. *)
Definition get_array (r : ref) : M (list point) :=
  fun m =>
    (mkMem (objects m) (accesses m ++ [Read r]), Ok (array_of (objects m) r)).

(** [a.copy()]. *)
Definition ndarray_copy (r : ref) : M ref :=
  a <~ get_array r ;; new (Ndarray a).

(** [np.delete(a, i, axis=0)] for an integer [i]: a new array. *)
Definition np_delete (r : ref) (i : nat) : M ref :=
  a <~ get_array r ;; new (Ndarray (Np.delete a i)).

(** [np.delete(a, idxs, axis=0)] for an index array: a new array. *)
Definition np_delete_many (r : ref) (idxs : list nat) : M ref :=
  a <~ get_array r ;; new (Ndarray (Np.delete_many a idxs)).

(** [[]]. *)
Definition list_new : M ref := new (PyList []).

(** [l.append(x)]: the list behind [r] is updated in place. *)
Definition list_append (r : ref) (x : segment) : M unit :=
  fun m =>
    (mkMem (store (objects m) r (PyList (list_of (objects m) r ++ [x])))
           (accesses m ++ [Updated r]),
     Ok tt).

Section MemProgram.

Context {G : Type} `{RandomState G}.
Variable svd : list point -> option Np.mat3.
Variable neighborhood_radius : float.
Variable min_samples : Z.
Variable threshold : float.

(** The loop variables: [points] and [lines] are references. *)
Record mstate : Type := mkMState {
  m_points : ref;
  m_lines : ref;
  m_iter_count : nat;
  m_rng : G
}.

(** Line 35. *)
Definition loop_guard_mem (ms : mstate) : M bool :=
  points <~ get_array (m_points ms) ;;
  ret ((Z.of_nat (length points) >? min_samples)%Z
       && (m_iter_count ms <? max_iterations)).

(** Lines 36-83.  The pool is read through [points]; each branch ends in
    the one [points = np.delete(points, ...)] of lines 51, 80 and 83, and
    line 76 appends to the list behind [lines]. *)
Definition loop_body_mem (ms : mstate) : M mstate :=
  let iter_count' := S (m_iter_count ms) in
  points <~ get_array (m_points ms) ;;
  ' (idx, g) <~ lift (randint (m_rng ms) (length points)) ;;
  let seed_point := nth idx points Np.zero3 in
  let local_indices := local_indices neighborhood_radius points seed_point in
  if (Z.of_nat (length local_indices) <? min_samples)%Z then
    points' <~ np_delete (m_points ms) idx ;;
    ret (mkMState points' (m_lines ms) iter_count' g)
  else
    let local_points := Np.take Np.zero3 points local_indices in
    ' (mean, direction) <~ lift (fit_line_segment svd local_points) ;;
    let inliers_idx := inliers_idx threshold local_points mean direction in
    if (Z.of_nat (length inliers_idx) >=? min_samples)%Z then
      let inlier_points := Np.take Np.zero3 local_points inliers_idx in
      let projections := projections inlier_points mean direction in
      lo <~ lift (Np.min projections) ;;
      let p_min := Np.add3 mean (Np.scale3 direction lo) in
      hi <~ lift (Np.max projections) ;;
      let p_max := Np.add3 mean (Np.scale3 direction hi) in
      _ <~ list_append (m_lines ms) (p_min, p_max) ;;
      points' <~ np_delete_many (m_points ms)
                                (Np.take 0 local_indices inliers_idx) ;;
      ret (mkMState points' (m_lines ms) iter_count' g)
    else
      points' <~ np_delete (m_points ms) idx ;;
      ret (mkMState points' (m_lines ms) iter_count' g).

(** Line 35: the [while]. *)
Fixpoint while_loop_mem (fuel : nat) (ms : mstate) : M mstate :=
  continue <~ loop_guard_mem ms ;;
  if continue then
    match fuel with
    | 0 => lift OutOfFuel
    | S fuel' => ms' <~ loop_body_mem ms ;; while_loop_mem fuel' ms'
    end
  else ret ms.

(** Lines 21-85, given a reference to the caller's array; the value
    returned is the reference to the list of line 27. *)
Definition run_local_ransac_mem (g : G) (data : ref) : M ref :=
  points <~ ndarray_copy data ;;
  lines <~ list_new ;;
  ms <~ while_loop_mem max_iterations (mkMState points lines 0 g) ;;
  ret (m_lines ms).

(** The loop variables [ms] in the memory [m] stand for the values [st],
    and both references are to objects that did not exist below [n0]. *)
Definition stands_for (n0 : nat) (m : mem) (ms : mstate) (st : state)
  : Prop :=
  nth_error (objects m) (m_points ms) = Some (Ndarray (points st))
  /\ nth_error (objects m) (m_lines ms) = Some (PyList (lines st))
  /\ n0 <= m_points ms
  /\ n0 <= m_lines ms
  /\ m_iter_count ms = iter_count st
  /\ m_rng ms = rng st.

(** From [m] to [m'] no object below [n0] was created, read or updated. *)
Definition apart_from (n0 : nat) (m m' : mem) : Prop :=
  firstn n0 (objects m') = firstn n0 (objects m)
  /\ exists l, accesses m' = accesses m ++ l
               /\ Forall (fun e => n0 <= ref_of e) l.

(** The outcome of the code on the memory against its outcome on values. *)
Definition outcome_stands_for (n0 : nat) (m : mem) (r : result mstate)
           (r' : result state) : Prop :=
  match r, r' with
  | Ok ms, Ok st => stands_for n0 m ms st
  | Raise e, Raise e' => e = e'
  | OutOfFuel, OutOfFuel => True
  | _, _ => False
  end.

End MemProgram.

End Mem.

(* ================================================================== *)
(** ** The script around the function (lines 87-130)

    The module-level code loads the point cloud, calls [run_local_ransac]
    and draws the result.  What it prints and what it hands to matplotlib is
    kept as a list of outputs, in order.  The loader (pandas) and the
    plotting calls are outside the repository: the outcome of loading is an
    argument, and a plotting call is an output that does not fail. *)

Module Script.

(** [a[::step]] for a step of at least one: the rows at 0, step, 2 step ... *)
Fixpoint stride_from {A : Type} (skip step : nat) (a : list A) : list A :=
  match a with
  | [] => []
  | x :: a' =>
      match skip with
      | 0 => x :: stride_from (step - 1) step a'
      | S skip' => stride_from skip' step a'
      end
  end.

Definition stride {A : Type} (step : nat) (a : list A) : list A :=
  stride_from 0 step a.

(** Lines 96-98: [pd.read_csv] and the selection of the columns x, y, z
    raise FileNotFoundError, raise something else, or give the array. *)
Inductive loaded : Type :=
| File_not_found
| Load_error
| Data (data : list point).

(** What [except Exception as e] (line 129) can catch. *)
Inductive caught : Type :=
| From_loader
| From_run (e : exn).

Inductive output : Type :=
| Print_searching                      (* line 93 *)
| Print_loaded (n : nat)               (* line 99 *)
| Print_starting                       (* line 29 *)
| Print_found (n : nat)                (* line 105 *)
| Figure                               (* lines 108-109 *)
| Scatter (xs ys zs : list float)      (* line 114 *)
| Plot (xs ys zs : list float)         (* line 118 *)
| Labels                               (* lines 120-122 *)
| Title (n : nat)                      (* line 123 *)
| Show                                 (* line 124 *)
| Print_missing                        (* line 127 *)
| Print_hint                           (* line 128 *)
| Print_unexpected (e : caught).       (* line 130 *)

(** Line 113: the bound from which the cloud is thinned out. *)
Definition thin_from : nat := 10000.

(** Line 113. *)
Definition step_of (data : list point) : nat :=
  if length data <? thin_from then 1 else 5.

(** Line 114: the three arguments of [ax.scatter]. *)
Definition scatter_of (data : list point) : output :=
  let step := step_of data in
  Scatter (map Np.vx (stride step data))
          (map Np.vy (stride step data))
          (map Np.vz (stride step data)).

(** Line 118. *)
Definition plot_of (s : segment) : output :=
  let (start, end_) := s in
  Plot [Np.vx start; Np.vx end_] [Np.vy start; Np.vy end_]
       [Np.vz start; Np.vz end_].

Section Main.

Context {G : Type} `{RandomState G}.
Variable svd : list point -> option Np.mat3.

(** Line 104: the call, with its print of line 29. *)
Definition found_lines (g : G) (data : list point) : result (list segment) :=
  run_local_ransac svd 2 8 0.05 g data.

(** Lines 93-130. *)
Definition main (g : G) (file : loaded) : list output :=
  Print_searching ::
  match file with
  | File_not_found => [Print_missing; Print_hint]
  | Load_error => [Print_unexpected From_loader]
  | Data data =>
      Print_loaded (length data) :: Print_starting ::
      match found_lines g data with
      | Ok lines =>
          Print_found (length lines) :: Figure :: scatter_of data ::
          map plot_of lines ++ [Labels; Title (length lines); Show]
      | Raise e => [Print_unexpected (From_run e)]
      | OutOfFuel => []
      end
  end.

End Main.

End Script.

(* ================================================================== *)
(** ** A concrete random source and decomposition, for running the model *)

Module Demo.

Import Np.
Local Open Scope float_scope.

(** A counter-based source: the draw is the counter reduced below the
    bound. *)
#[export] Instance counter_rng : RandomState nat.
Proof.
  refine {| draw := fun g high => (g mod high, S g) |}.
  intros g high Hpos. simpl. apply Nat.mod_upper_bound. lia.
Defined.

(** The decomposition of points along the x axis: the rows of [vv] are the
    coordinate axes. *)
Definition svd_axes (_ : list point) : option mat3 :=
  Some (mk3 1 0 0, mk3 0 1 0, mk3 0 0 1).

(** A decomposition that never converges. *)
Definition svd_fails (_ : list point) : option mat3 := None.

(** [n] points on the x axis, [step] apart, from [x0]. *)
Fixpoint on_x_axis (n : nat) (x0 step : float) : list point :=
  match n with
  | 0 => []
  | S n' => mk3 x0 0 0 :: on_x_axis n' (x0 + step) step
  end.

End Demo.


Unset Implicit Arguments.

(* ================================================================== *)
(** ** Order of binary64 values *)

Module FloatOrder.

Local Open Scope float_scope.

(** The comparison of the specification level, on itself. *)
Lemma SFcompare_refl (s : spec_float) :
  SFcompare s s = match s with S754_nan => None | _ => Some Eq end.
Proof.
  destruct s as [sg | sg | | sg m e]; simpl; try reflexivity.
  - destruct sg; reflexivity.
  - rewrite Z.compare_refl.
    change (Pos.compare_cont Eq m m) with (Pos.compare m m).
    rewrite Pos.compare_refl. destruct sg; reflexivity.
Qed.

Lemma SFcompare_antisym (a b : spec_float) :
  SFcompare b a = option_map CompOpp (SFcompare a b).
Proof.
  destruct a as [sa | sa | | sa ma ea], b as [sb | sb | | sb mb eb];
    simpl; try reflexivity;
    try (destruct sa; reflexivity); try (destruct sb; reflexivity);
    try (destruct sa, sb; reflexivity).
  change (Pos.compare_cont Eq ma mb) with (Pos.compare ma mb).
  change (Pos.compare_cont Eq mb ma) with (Pos.compare mb ma).
  rewrite (Z.compare_antisym ea eb), (Pos.compare_antisym ma mb).
  destruct sa, sb; simpl; try reflexivity;
    destruct (ea ?= eb)%Z; simpl; try reflexivity;
    destruct (ma ?= mb)%positive; reflexivity.
Qed.

Lemma is_nan_spec (x : float) :
  is_nan x = match Prim2SF x with S754_nan => true | _ => false end.
Proof.
  unfold is_nan. rewrite FloatAxioms.eqb_spec. unfold SFeqb. rewrite SFcompare_refl.
  destruct (Prim2SF x); reflexivity.
Qed.

Lemma SFcompare_none (a b : spec_float) :
  SFcompare a b = None -> a = S754_nan \/ b = S754_nan.
Proof.
  destruct a, b; simpl; intros E; try discriminate; auto.
Qed.

(** A value equal to the bound is not below it. *)
Lemma ltb_false_of_eqb (x y : float) : (x =? y) = true -> (x <? y) = false.
Proof.
  rewrite FloatAxioms.eqb_spec, FloatAxioms.ltb_spec. unfold SFeqb, SFltb.
  destruct (SFcompare (Prim2SF x) (Prim2SF y)) as [[]|]; congruence.
Qed.

Lemma ltb_irrefl (x : float) : (x <? x) = false.
Proof.
  rewrite FloatAxioms.ltb_spec. unfold SFltb. rewrite SFcompare_refl.
  destruct (Prim2SF x); reflexivity.
Qed.

(** On numbers, not being below the bound is being at or above it. *)
Lemma leb_of_ltb_false (x y : float) :
  is_nan x = false -> is_nan y = false ->
  (x <? y) = false -> (y <=? x) = true.
Proof.
  rewrite !is_nan_spec, FloatAxioms.ltb_spec, FloatAxioms.leb_spec. unfold SFltb, SFleb.
  rewrite (SFcompare_antisym (Prim2SF x) (Prim2SF y)).
  intros Hx Hy.
  destruct (SFcompare (Prim2SF x) (Prim2SF y)) as [[]|] eqn:E; simpl;
    try congruence.
  apply SFcompare_none in E. destruct E as [E|E]; rewrite E in *; discriminate.
Qed.

Lemma leb_refl (x : float) : is_nan x = false -> (x <=? x) = true.
Proof.
  rewrite is_nan_spec, FloatAxioms.leb_spec. unfold SFleb. rewrite SFcompare_refl.
  destruct (Prim2SF x); congruence.
Qed.

Lemma leb_total (x y : float) :
  is_nan x = false -> is_nan y = false ->
  (x <=? y) = false -> (y <=? x) = true.
Proof.
  rewrite !is_nan_spec, !FloatAxioms.leb_spec. unfold SFleb.
  rewrite (SFcompare_antisym (Prim2SF x) (Prim2SF y)).
  intros Hx Hy.
  destruct (SFcompare (Prim2SF x) (Prim2SF y)) as [[]|] eqn:E; simpl;
    try congruence.
  apply SFcompare_none in E. destruct E as [E|E]; rewrite E in *; discriminate.
Qed.

Lemma leb_not_nan (x y : float) :
  (x <=? y) = true -> is_nan x = false /\ is_nan y = false.
Proof.
  rewrite !is_nan_spec, FloatAxioms.leb_spec. unfold SFleb.
  destruct (Prim2SF x), (Prim2SF y); simpl; intros E; try discriminate; auto.
Qed.

(** The order of the specification level as a relation. *)
Definition SFle (a b : spec_float) : Prop := SFleb a b = true.

Ltac cmp_cases :=
  repeat match goal with
  | H : context [(?a ?= ?b)%Z] |- _ =>
      destruct (Z.compare_spec a b); simpl in H
  | H : context [(?a ?= ?b)%positive] |- _ =>
      destruct (Pos.compare_spec a b); simpl in H
  | |- context [(?a ?= ?b)%Z] => destruct (Z.compare_spec a b); simpl
  | |- context [(?a ?= ?b)%positive] =>
      destruct (Pos.compare_spec a b); simpl
  end.

Lemma SFle_trans (a b c : spec_float) : SFle a b -> SFle b c -> SFle a c.
Proof.
  unfold SFle, SFleb.
  destruct a as [sa | sa | | sa ma ea], b as [sb | sb | | sb mb eb],
           c as [sc | sc | | sc mc ec]; simpl;
    try discriminate; try reflexivity;
    try (destruct sa; simpl; try discriminate; try reflexivity);
    try (destruct sb; simpl; try discriminate; try reflexivity);
    try (destruct sc; simpl; try discriminate; try reflexivity).
  all: change (Pos.compare_cont Eq) with Pos.compare.
  all: intros H1 H2; cmp_cases; try discriminate; try reflexivity; subst;
       try lia.
Qed.

Lemma leb_trans (x y z : float) :
  (x <=? y) = true -> (y <=? z) = true -> (x <=? z) = true.
Proof. rewrite !FloatAxioms.leb_spec. apply SFle_trans. Qed.

(** A finite value minus itself is zero. *)
Lemma is_finite_spec (x : float) :
  is_finite x = true ->
  match Prim2SF x with
  | S754_zero _ | S754_finite _ _ _ => True
  | _ => False
  end.
Proof.
  unfold is_finite, is_infinity. rewrite is_nan_spec, FloatAxioms.eqb_spec, abs_spec.
  destruct (Prim2SF x) as [s | s | | s m e]; simpl; auto; intros E.
  - vm_compute in E. discriminate.
  - discriminate.
Qed.

Lemma sub_diag (x : float) : is_finite x = true -> x - x = 0.
Proof.
  intros Hf. apply is_finite_spec in Hf. apply Prim2SF_inj.
  rewrite FloatAxioms.sub_spec. unfold SF64sub, SFsub.
  destruct (Prim2SF x) as [s | s | | s m e]; try contradiction.
  - destruct s; reflexivity.
  - rewrite Z.sub_diag. reflexivity.
Qed.

End FloatOrder.


(* ================================================================== *)
(** ** Index arrays: [where], indexing, deletion *)

Module NpFacts.

Import Np.

Section Lists.

Context {A : Type}.

Lemma where_from_In (mask : list bool) : forall i j,
  In j (where_from i mask) <-> i <= j /\ nth_error mask (j - i) = Some true.
Proof.
  induction mask as [|b mask IH]; intros i j; simpl.
  - split; [tauto|]. intros [_ E]. destruct (j - i); discriminate.
  - assert (Hrec : In j (where_from (S i) mask) <->
                   i < j /\ nth_error (b :: mask) (j - i) = Some true).
    { rewrite IH. split; intros [Hle E]; split; try lia.
      - replace (j - i) with (S (j - S i)) by lia. exact E.
      - replace (j - i) with (S (j - S i)) in E by lia. exact E. }
    destruct b; simpl; rewrite Hrec.
    + split.
      * intros [->|[Hlt E]]; [|split; [lia|exact E]].
        split; [lia|]. rewrite Nat.sub_diag. reflexivity.
      * intros [Hle E]. destruct (Nat.eq_dec i j) as [->|Hne]; [now left|].
        right. split; [lia|exact E].
    + split; [intros [Hlt E]; split; [lia|exact E]|].
      intros [Hle E]. split; [|exact E].
      destruct (Nat.eq_dec i j) as [->|Hne]; [|lia].
      rewrite Nat.sub_diag in E. discriminate.
Qed.

Lemma where_from_lt (mask : list bool) i j :
  In j (where_from i mask) -> i <= j < i + length mask.
Proof.
  rewrite where_from_In. intros [Hle E]. split; [exact Hle|].
  assert (j - i < length mask) by (apply nth_error_Some; congruence). lia.
Qed.

Lemma where_from_NoDup (mask : list bool) : forall i,
  NoDup (where_from i mask).
Proof.
  induction mask as [|b mask IH]; intros i; simpl; [constructor|].
  destruct b; [|apply IH]. constructor; [|apply IH].
  intros Hin. apply where_from_lt in Hin. lia.
Qed.

Lemma where_In (mask : list bool) j :
  In j (where_ mask) <-> nth_error mask j = Some true.
Proof.
  unfold where_. rewrite where_from_In, Nat.sub_0_r.
  split; [tauto|]. intros E. split; [lia|exact E].
Qed.

Lemma where_lt (mask : list bool) j : In j (where_ mask) -> j < length mask.
Proof. intros Hin. apply where_from_lt in Hin. lia. Qed.

Lemma where_NoDup (mask : list bool) : NoDup (where_ mask).
Proof. apply where_from_NoDup. Qed.

(** Indexing. *)
Lemma take_length (d : A) (a : list A) (idx : list nat) :
  length (take d a idx) = length idx.
Proof. apply length_map. Qed.

Lemma take_In_range (d : nat) (a idx : list nat) (n : nat) j :
  (forall k, In k idx -> k < length a) -> (forall x, In x a -> x < n) ->
  In j (take d a idx) -> j < n.
Proof.
  intros Hidx Ha Hin. apply in_map_iff in Hin. destruct Hin as [k [<- Hk]].
  apply Ha, nth_In, Hidx, Hk.
Qed.

Lemma take_NoDup (d : A) (a : list A) (idx : list nat) :
  NoDup a -> NoDup idx -> (forall k, In k idx -> k < length a) ->
  NoDup (take d a idx).
Proof.
  intros Ha Hidx. induction Hidx as [|k idx Hk Hidx IH]; intros Hr; simpl.
  - constructor.
  - constructor; [|apply IH; intros; apply Hr; now right].
    intros Hin. apply in_map_iff in Hin. destruct Hin as [k' [E Hk']].
    assert (k' = k).
    { apply (proj1 (NoDup_nth a d) Ha); [apply Hr; now right
                                        |apply Hr; now left|exact E]. }
    subst. contradiction.
Qed.

Lemma take_take (d : A) (a : list A) (ids idx : list nat) :
  (forall k, In k idx -> k < length ids) ->
  take d a (take 0 ids idx) = take d (take d a ids) idx.
Proof.
  intros Hr. unfold take. rewrite map_map. apply map_ext_in. intros k Hk.
  symmetry.
  rewrite (nth_indep (map (fun i => nth i a d) ids) d (nth 0 a d)).
  - apply (map_nth (fun i => nth i a d)).
  - rewrite length_map. apply Hr, Hk.
Qed.

(** Deletion. *)
Lemma delete_from_ext (a : list A) : forall i r r',
  (forall j, i <= j -> (In j r <-> In j r')) ->
  delete_from i a r = delete_from i a r'.
Proof.
  induction a as [|x a IH]; intros i r r' Hext; simpl; [reflexivity|].
  assert (E : existsb (Nat.eqb i) r = existsb (Nat.eqb i) r').
  { apply eq_true_iff_eq. rewrite !existsb_exists.
    split; intros [j [Hj Ej]]; apply Nat.eqb_eq in Ej; subst j;
      exists i; (split; [apply (Hext i); [lia|exact Hj]|apply Nat.eqb_refl]). }
  rewrite E, (IH (S i) r r'); [reflexivity|].
  intros j Hj. apply Hext. lia.
Qed.

Lemma existsb_eqb_In (i : nat) (r : list nat) :
  existsb (Nat.eqb i) r = true <-> In i r.
Proof.
  rewrite existsb_exists. split.
  - intros [j [Hj E]]. apply Nat.eqb_eq in E. now subst.
  - intros Hin. exists i. split; [exact Hin|apply Nat.eqb_refl].
Qed.

Lemma delete_from_perm (d : A) (a : list A) : forall i r,
  NoDup r -> (forall j, In j r -> i <= j < i + length a) ->
  Permutation (map (fun j => nth (j - i) a d) r ++ delete_from i a r) a.
Proof.
  induction a as [|x a IH]; intros i r Hnd Hr; simpl.
  - destruct r as [|j r]; [constructor|].
    specialize (Hr j (or_introl eq_refl)). simpl in Hr. lia.
  - destruct (existsb (Nat.eqb i) r) eqn:E.
    + apply existsb_eqb_In in E. apply in_split in E.
      destruct E as [r1 [r2 ->]].
      assert (Hnd' : NoDup (r1 ++ r2)) by (eapply NoDup_remove_1; eauto).
      assert (Hni : ~ In i (r1 ++ r2)) by (eapply NoDup_remove_2; eauto).
      assert (Hr' : forall j, In j (r1 ++ r2) -> S i <= j < S i + length a).
      { intros j Hj. assert (j <> i) by (intros ->; contradiction).
        assert (i <= j < i + S (length a)).
        { apply Hr. apply in_or_app. apply in_app_or in Hj.
          destruct Hj; [now left|right; now right]. }
        lia. }
      rewrite (delete_from_ext a (S i) (r1 ++ i :: r2) (r1 ++ r2)).
      2:{ intros j Hj. rewrite !in_app_iff. simpl. split; [|tauto].
          intros [?|[->|?]]; [tauto|lia|tauto]. }
      eapply Permutation_trans.
      { apply Permutation_app_tail, Permutation_map, Permutation_sym,
          Permutation_middle. }
      simpl. rewrite Nat.sub_diag. apply perm_skip.
      rewrite (map_ext_in _ (fun j => nth (j - S i) a d)).
      * apply IH; assumption.
      * intros j Hj. apply Hr' in Hj.
        replace (j - i) with (S (j - S i)) by lia. reflexivity.
    + assert (Hni : ~ In i r).
      { intros Hin. apply existsb_eqb_In in Hin. congruence. }
      assert (Hr' : forall j, In j r -> S i <= j < S i + length a).
      { intros j Hj. assert (j <> i) by (intros ->; contradiction).
        specialize (Hr j Hj). simpl in Hr. lia. }
      eapply Permutation_trans; [apply Permutation_sym, Permutation_middle|].
      apply perm_skip.
      rewrite (map_ext_in _ (fun j => nth (j - S i) a d)).
      * apply IH; assumption.
      * intros j Hj. apply Hr' in Hj.
        replace (j - i) with (S (j - S i)) by lia. reflexivity.
Qed.

(** The rows taken at an index array and the rows left after deleting at it
    make up the array. *)
Lemma delete_many_perm (d : A) (a : list A) (r : list nat) :
  NoDup r -> (forall j, In j r -> j < length a) ->
  Permutation (take d a r ++ delete_many a r) a.
Proof.
  intros Hnd Hr. unfold take, delete_many.
  rewrite (map_ext _ (fun j => nth (j - 0) a d))
    by (intros j; now rewrite Nat.sub_0_r).
  apply delete_from_perm; [exact Hnd|]. intros j Hj. apply Hr in Hj. lia.
Qed.

Lemma delete_many_length (a : list A) (r : list nat) :
  NoDup r -> (forall j, In j r -> j < length a) ->
  length r + length (delete_many a r) = length a.
Proof.
  intros Hnd Hr. destruct a as [|x a].
  - destruct r as [|j r]; [reflexivity|].
    specialize (Hr j (or_introl eq_refl)). simpl in Hr. lia.
  - rewrite <- (Permutation_length (delete_many_perm x (x :: a) r Hnd Hr)).
    rewrite length_app, take_length. reflexivity.
Qed.

Lemma delete_from_single (a : list A) : forall k i,
  delete_from k a [k + i] = firstn i a ++ skipn (S i) a.
Proof.
  induction a as [|x a IH]; intros k i; simpl.
  - destruct i; reflexivity.
  - destruct i as [|i]; simpl.
    + rewrite Nat.add_0_r, Nat.eqb_refl. simpl.
      rewrite (delete_from_ext a (S k) [k] []).
      * clear. generalize (S k). induction a as [|y a IH]; intros n; simpl;
          [reflexivity|]. now rewrite IH.
      * intros j Hj. simpl. split; [intros [->|[]]; lia|tauto].
    + replace (k =? k + S i) with false by (symmetry; apply Nat.eqb_neq; lia).
      simpl. f_equal. replace (k + S i) with (S k + i) by lia. apply IH.
Qed.

(** Deleting at an integer is deleting at the index array holding it. *)
Lemma delete_as_delete_many (a : list A) (i : nat) :
  delete a i = delete_many a [i].
Proof. symmetry. apply (delete_from_single a 0 i). Qed.

End Lists.

Lemma delete_from_map {A B : Type} (f : A -> B) (a : list A) : forall i r,
  delete_from i (map f a) r = map f (delete_from i a r).
Proof.
  induction a as [|x a IH]; intros i r; simpl; [reflexivity|].
  destruct (existsb (Nat.eqb i) r); simpl; now rewrite IH.
Qed.

Lemma take_delete_many {A : Type} (d : A) (a : list A) (ids r : list nat) :
  take d a (delete_many ids r) = delete_many (take d a ids) r.
Proof. unfold take, delete_many. symmetry. apply delete_from_map. Qed.

End NpFacts.

(* ================================================================== *)
(** ** One pass of the loop *)

Section Pass.

Context {G : Type} `{RandomState G}.
Variable svd : list point -> option Np.mat3.
Variable neighborhood_radius : float.
Variable min_samples : Z.
Variable threshold : float.

Local Abbreviation state := (@state G).
Local Abbreviation loop_body := (loop_body svd neighborhood_radius min_samples threshold).
Local Abbreviation while_loop :=
  (while_loop svd neighborhood_radius min_samples threshold).
Local Abbreviation loop_guard := (loop_guard min_samples).
Local Abbreviation seed_index := (@seed_index G _).
Local Abbreviation neighbourhood := (neighbourhood neighborhood_radius).
Local Abbreviation local_points_of := (local_points_of neighborhood_radius).
Local Abbreviation is_noise := (is_noise neighborhood_radius min_samples).
Local Abbreviation enough_inliers :=
  (enough_inliers neighborhood_radius min_samples threshold).
Local Abbreviation inlier_rows := (inlier_rows neighborhood_radius threshold).
Local Abbreviation removed_indices :=
  (removed_indices svd neighborhood_radius min_samples threshold).
Local Abbreviation emitted := (emitted svd neighborhood_radius min_samples threshold).
Local Abbreviation appended :=
  (appended svd neighborhood_radius min_samples threshold).
Local Abbreviation accepts := (accepts svd neighborhood_radius min_samples threshold).

Lemma while_loop_stop (fuel : nat) (st : state) :
  loop_guard st = false -> while_loop fuel st = Ok st.
Proof. intros E. destruct fuel; simpl; rewrite E; reflexivity. Qed.

Lemma while_loop_pass (fuel : nat) (st : state) :
  loop_guard st = true ->
  while_loop (S fuel) st = bind (loop_body st) (while_loop fuel).
Proof. intros E. simpl. rewrite E. reflexivity. Qed.

Lemma seed_index_lt (st : state) :
  0 < length (points st) -> seed_index st < length (points st).
Proof. intros Hpos. apply draw_lt, Hpos. Qed.

Lemma local_indices_lt (pts : list point) (seed : point) (j : nat) :
  In j (local_indices neighborhood_radius pts seed) -> j < length pts.
Proof.
  intros Hin. apply NpFacts.where_lt in Hin.
  unfold dists in Hin. now rewrite !length_map in Hin.
Qed.

Lemma inliers_idx_lt (lp : list point) (mean direction : point) (k : nat) :
  In k (inliers_idx threshold lp mean direction) -> k < length lp.
Proof.
  intros Hin. apply NpFacts.where_lt in Hin.
  unfold dists_to_line in Hin. now rewrite !length_map in Hin.
Qed.

Lemma local_points_length (st : state) :
  length (local_points_of st) = length (neighbourhood st).
Proof. apply NpFacts.take_length. Qed.

Lemma inlier_rows_lt (st : state) (mean direction : point) (j : nat) :
  In j (inlier_rows st mean direction) -> j < length (points st).
Proof.
  unfold inlier_rows. apply NpFacts.take_In_range.
  - intros k Hk. apply inliers_idx_lt in Hk.
    now rewrite local_points_length in Hk.
  - intros x. apply local_indices_lt.
Qed.

Lemma inlier_rows_NoDup (st : state) (mean direction : point) :
  NoDup (inlier_rows st mean direction).
Proof.
  unfold inlier_rows. apply NpFacts.take_NoDup.
  - apply NpFacts.where_NoDup.
  - apply NpFacts.where_NoDup.
  - intros k Hk. apply inliers_idx_lt in Hk.
    now rewrite local_points_length in Hk.
Qed.

Lemma inlier_rows_length (st : state) (mean direction : point) :
  length (inlier_rows st mean direction)
  = length (inliers_idx threshold (local_points_of st) mean direction).
Proof. apply NpFacts.take_length. Qed.

Lemma removed_indices_NoDup (st : state) : NoDup (removed_indices st).
Proof.
  unfold Ransac.removed_indices.
  destruct (is_noise st); [repeat constructor; simpl; tauto|].
  destruct (fit_line_segment svd (local_points_of st)) as [[mean dir]| |];
    try constructor.
  destruct (enough_inliers st mean dir);
    [apply inlier_rows_NoDup|repeat constructor; simpl; tauto].
Qed.

Lemma removed_indices_lt (st : state) (j : nat) :
  0 < length (points st) ->
  In j (removed_indices st) -> j < length (points st).
Proof.
  intros Hpos. unfold Ransac.removed_indices.
  assert (Hseed : In j [seed_index st] -> j < length (points st)).
  { intros [<-|[]]. apply seed_index_lt, Hpos. }
  destruct (is_noise st); [exact Hseed|].
  destruct (fit_line_segment svd (local_points_of st)) as [[mean dir]| |];
    try (intros []).
  destruct (enough_inliers st mean dir); [apply inlier_rows_lt|exact Hseed].
Qed.

(** The three ways through the body (lines 49-52, 66-80, 81-83). *)
Lemma loop_body_cases (st st' : state) :
  loop_body st = Ok st' ->
  0 < length (points st)
  /\ iter_count st' = S (iter_count st)
  /\ rng st' = snd (draw (rng st) (length (points st)))
  /\ ((is_noise st = true
       /\ points st' = Np.delete (points st) (seed_index st)
       /\ lines st' = lines st)
      \/ (is_noise st = false
          /\ exists mean direction,
               fit_line_segment svd (local_points_of st) = Ok (mean, direction)
               /\ ((enough_inliers st mean direction = true
                    /\ exists seg,
                         segment_of
                           (Np.take Np.zero3 (local_points_of st)
                              (inliers_idx threshold (local_points_of st)
                                           mean direction))
                           mean direction = Ok seg
                         /\ points st'
                            = Np.delete_many (points st)
                                             (inlier_rows st mean direction)
                         /\ lines st' = lines st ++ [seg])
                   \/ (enough_inliers st mean direction = false
                       /\ points st' = Np.delete (points st) (seed_index st)
                       /\ lines st' = lines st)))).
Proof.
  unfold Ransac.loop_body, randint.
  destruct (length (points st) =? 0) eqn:Elen; [discriminate|].
  apply Nat.eqb_neq in Elen.
  unfold Ransac.seed_index, Ransac.is_noise,
    Ransac.enough_inliers, Ransac.inlier_rows,
    Ransac.local_points_of, Ransac.neighbourhood, seed_of,
    Ransac.seed_index.
  destruct (draw (rng st) (length (points st))) as [idx g] eqn:Edraw.
  cbn [bind fst snd].
  set (loc := local_indices neighborhood_radius (points st)
                (nth idx (points st) Np.zero3)).
  destruct (Z.of_nat (length loc) <? min_samples)%Z eqn:Enoise.
  - intros E. injection E as <-. cbn [points lines iter_count rng].
    repeat split; try lia. left. split; [reflexivity|split; reflexivity].
  - set (lp := Np.take Np.zero3 (points st) loc).
    destruct (fit_line_segment svd lp) as [[mean dir]| |] eqn:Efit;
      cbn [bind]; try discriminate.
    destruct (Z.of_nat (length (inliers_idx threshold lp mean dir))
              >=? min_samples)%Z eqn:Eenough.
    + destruct (Np.min (projections
                  (Np.take Np.zero3 lp (inliers_idx threshold lp mean dir))
                  mean dir)) as [lo| |] eqn:Emin; cbn [bind];
        try discriminate.
      destruct (Np.max (projections
                  (Np.take Np.zero3 lp (inliers_idx threshold lp mean dir))
                  mean dir)) as [hi| |] eqn:Emax; cbn [bind];
        try discriminate.
      intros E. injection E as <-. cbn [points lines iter_count rng].
      repeat split; try lia. right. split; [reflexivity|].
      exists mean, dir. split; [reflexivity|]. left. split; [exact Eenough|].
      eexists. unfold segment_of. rewrite Emin, Emax. cbn [bind].
      split; [reflexivity|split; reflexivity].
    + intros E. injection E as <-. cbn [points lines iter_count rng].
      repeat split; try lia. right. split; [reflexivity|].
      exists mean, dir. split; [reflexivity|]. right.
      split; [exact Eenough|split; reflexivity].
Qed.

(** The same, through [removed_indices], [appended] and [accepts]. *)

Lemma segment_of_ok_nonempty (ip : list point) (mean dir : point)
  (seg : segment) :
  segment_of ip mean dir = Ok seg -> ip <> [].
Proof. intros E ->. discriminate E. Qed.

Lemma loop_body_ok (st st' : state) :
  loop_body st = Ok st' ->
  0 < length (points st)
  /\ iter_count st' = S (iter_count st)
  /\ points st' = Np.delete_many (points st) (removed_indices st)
  /\ lines st' = lines st ++ appended st
  /\ length (appended st) = (if accepts st then 1 else 0)
  /\ 1 <= length (removed_indices st)
  /\ (if accepts st
      then (min_samples <= Z.of_nat (length (removed_indices st)))%Z
      else removed_indices st = [seed_index st]).
Proof.
  intros E. apply loop_body_cases in E.
  destruct E as [Hpos [Hit [_ Hcases]]].
  split; [exact Hpos|]. split; [exact Hit|].
  unfold Ransac.appended, Ransac.emitted, Ransac.removed_indices,
    Ransac.accepts.
  destruct Hcases as [[En [Hp Hl]]|[En [mean [dir [Efit Hcases]]]]];
    rewrite En; cbn [negb andb].
  - rewrite Hp, Hl, app_nil_r, NpFacts.delete_as_delete_many.
    repeat split; simpl; lia.
  - rewrite Efit.
    destruct Hcases as [[Ee [seg [Eseg [Hp Hl]]]]|[Ee [Hp Hl]]]; rewrite Ee.
    + rewrite Eseg, Hp, Hl. repeat split.
      * rewrite inlier_rows_length.
        apply segment_of_ok_nonempty in Eseg.
        rewrite <- (NpFacts.take_length Np.zero3 (local_points_of st)).
        destruct (Np.take Np.zero3 (local_points_of st) _);
          [now elim Eseg|simpl; lia].
      * rewrite inlier_rows_length. unfold Ransac.enough_inliers in Ee.
        apply Z.geb_le in Ee. exact Ee.
    + rewrite Hp, Hl, app_nil_r, NpFacts.delete_as_delete_many.
      repeat split; simpl; lia.
Qed.

(** Every completed pass takes at least one row out of the pool. *)
Lemma loop_body_length (st st' : state) :
  loop_body st = Ok st' ->
  length (removed_indices st) + length (points st') = length (points st).
Proof.
  intros E. destruct (loop_body_ok st st' E) as [Hpos [_ [Hp _]]].
  rewrite Hp. apply NpFacts.delete_many_length.
  - apply removed_indices_NoDup.
  - intros j. apply removed_indices_lt, Hpos.
Qed.

(** *** The whole loop *)

(** An invariant of the body holds when the loop returns, and the guard
    fails there. *)
Lemma while_loop_ind (P : state -> Prop) :
  (forall st st', loop_guard st = true -> P st ->
                  loop_body st = Ok st' -> P st') ->
  forall fuel st st',
    P st -> while_loop fuel st = Ok st' -> P st' /\ loop_guard st' = false.
Proof.
  intros Hstep. induction fuel as [|fuel IH]; intros st st' HP; simpl;
    destruct (loop_guard st) eqn:Eg; try discriminate;
    try (intros E; injection E as <-; auto).
  destruct (loop_body st) as [st1| |] eqn:Eb; cbn [bind]; try discriminate.
  apply IH. eapply Hstep; eauto.
Qed.

Ltac break_match :=
  match goal with
  | |- context [match ?x with _ => _ end] =>
      lazymatch x with
      | context [match _ with _ => _ end] => fail
      | _ => destruct x
      end
  end.

(** The body itself never runs out of fuel: it has no loop of its own. *)
Lemma loop_body_no_fuel (st : state) : loop_body st <> OutOfFuel.
Proof.
  unfold Ransac.loop_body, randint, fit_line_segment, linalg_svd,
    Np.min, Np.max, bind.
  repeat break_match; discriminate.
Qed.

(** The fuel is never what stops the loop: the passes left before the cap
    are at most the fuel. *)
Lemma while_loop_fuel (fuel : nat) : forall st,
  max_iterations <= iter_count st + fuel ->
  while_loop fuel st <> OutOfFuel.
Proof.
  induction fuel as [|fuel IH]; intros st Hfuel; simpl;
    destruct (loop_guard st) eqn:Eg; try discriminate.
  - unfold Ransac.loop_guard in Eg. apply andb_true_iff in Eg.
    destruct Eg as [_ Eg]. apply Nat.ltb_lt in Eg. lia.
  - destruct (loop_body st) as [st1| |] eqn:Eb; cbn [bind];
      try discriminate.
    + apply IH. apply loop_body_ok in Eb. lia.
    + now apply loop_body_no_fuel in Eb.
Qed.

(** More fuel than the cap changes nothing. *)
Lemma while_loop_fuel_irrelevant (fuel : nat) : forall fuel' st,
  max_iterations <= iter_count st + fuel ->
  max_iterations <= iter_count st + fuel' ->
  while_loop fuel st = while_loop fuel' st.
Proof.
  induction fuel as [|fuel IH]; intros fuel' st Hf Hf'.
  - destruct fuel' as [|fuel'']; [reflexivity|]. simpl.
    destruct (loop_guard st) eqn:Eg; [|reflexivity].
    unfold Ransac.loop_guard in Eg. apply andb_true_iff in Eg.
    destruct Eg as [_ Eg]. apply Nat.ltb_lt in Eg. lia.
  - simpl. destruct (loop_guard st) eqn:Eg;
      [|now rewrite while_loop_stop].
    destruct fuel' as [|fuel''].
    + unfold Ransac.loop_guard in Eg. apply andb_true_iff in Eg.
      destruct Eg as [_ Eg]. apply Nat.ltb_lt in Eg. lia.
    + simpl. rewrite Eg.
      destruct (loop_body st) as [st1| |] eqn:Eb; cbn [bind];
        try reflexivity.
      apply loop_body_ok in Eb. apply IH; lia.
Qed.

(** What the guard tests. *)
Lemma loop_guard_true (st : state) :
  loop_guard st = true <->
  (min_samples < Z.of_nat (length (points st)))%Z
  /\ iter_count st < max_iterations.
Proof.
  unfold Ransac.loop_guard. rewrite andb_true_iff, Z.gtb_ltb, Z.ltb_lt,
    Nat.ltb_lt. reflexivity.
Qed.

Lemma loop_guard_false (st : state) :
  loop_guard st = false <->
  (Z.of_nat (length (points st)) <= min_samples)%Z
  \/ max_iterations <= iter_count st.
Proof.
  unfold Ransac.loop_guard. rewrite andb_false_iff, Z.gtb_ltb, Z.ltb_ge,
    Nat.ltb_ge. reflexivity.
Qed.

(** An exception inside a pass is the decomposition failing, or comes from
    an empty array, which takes a [min_samples] below one. *)
Lemma loop_body_raise (st : state) (e : exn) :
  loop_guard st = true -> loop_body st = Raise e ->
  e = LinAlgError \/ (min_samples <= 0)%Z.
Proof.
  intros Hg. apply loop_guard_true in Hg. destruct Hg as [Hlen _].
  unfold Ransac.loop_body, randint.
  destruct (length (points st) =? 0) eqn:Elen.
  { apply Nat.eqb_eq in Elen. intros _. right. lia. }
  destruct (draw (rng st) (length (points st))) as [idx g]. cbn [bind].
  destruct (Z.ltb _ _); [discriminate|].
  unfold fit_line_segment, linalg_svd.
  destruct (svd _); cbn [bind]; [|intros E; injection E as <-; now left].
  destruct (Z.geb _ _) eqn:Ege; [|discriminate].
  apply Z.geb_le in Ege. revert Ege.
  match goal with
  | |- context [projections (Np.take Np.zero3 ?lp ?inl)] =>
      destruct inl as [|k inl']
  end.
  - simpl. intros Hms _. right. lia.
  - intros _. simpl. discriminate.
Qed.

Lemma while_loop_raise (fuel : nat) : forall st e,
  while_loop fuel st = Raise e -> e = LinAlgError \/ (min_samples <= 0)%Z.
Proof.
  induction fuel as [|fuel IH]; intros st e; simpl;
    destruct (loop_guard st) eqn:Eg; try discriminate.
  destruct (loop_body st) as [st1|e1|] eqn:Eb; cbn [bind];
    try discriminate.
  - apply IH.
  - intros E. injection E as <-. eapply loop_body_raise; eauto.
Qed.

(** C7 (as the code has it).  The iteration cap is the constant 5000 of
    line 32, not an argument.  The loop goes on exactly while the pool holds
    more than [min_samples] points and fewer than 5000 passes were made.
    Every call ends: never by lack of fuel; with the segments found once the
    guard fails, after at most 5000 passes; or with an exception, which is
    the decomposition failing or takes a [min_samples] below one. *)
Theorem loop_stops_at_guard_within_fixed_cap (g : G) (data : list point) :
  max_iterations = 5000
  /\ (forall st : state, loop_guard st = true <->
                 (min_samples < Z.of_nat (length (points st)))%Z
                 /\ iter_count st < max_iterations)
  /\ (forall fuel (st : state), loop_guard st = true ->
        while_loop (S fuel) st = bind (loop_body st) (while_loop fuel))
  /\ (forall fuel (st : state),
        loop_guard st = false -> while_loop fuel st = Ok st)
  /\ match run svd neighborhood_radius min_samples threshold g data with
     | Ok st =>
         loop_guard st = false
         /\ iter_count st <= max_iterations
         /\ run_local_ransac svd neighborhood_radius min_samples threshold
                             g data = Ok (lines st)
     | Raise e => e = LinAlgError \/ (min_samples <= 0)%Z
     | OutOfFuel => False
     end.
Proof.
  split; [reflexivity|]. split; [exact loop_guard_true|].
  split; [intros fuel st; apply while_loop_pass|].
  split; [intros fuel st; apply while_loop_stop|].
  unfold run_local_ransac.
  destruct (run svd neighborhood_radius min_samples threshold g data)
    as [st|e|] eqn:Erun; unfold run in Erun.
  - pose proof (while_loop_ind (fun s : state => iter_count s <= max_iterations))
      as Hind.
    destruct (Hind) with (fuel := max_iterations) (st := init g data)
                         (st' := st) as [Hle Hg]; try assumption.
    + intros s s' Hgs _ Hb. apply loop_guard_true in Hgs.
      apply loop_body_ok in Hb. lia.
    + simpl. lia.
    + auto.
  - eapply while_loop_raise; eauto.
  - revert Erun. apply while_loop_fuel. simpl. lia.
Qed.

(** C10.  Every completed pass takes at least one row out of the pool: the
    seed alone when the pass does not accept a fit, at least [min_samples]
    rows when it does.  Hence a run on [n] points makes at most [n] passes,
    whatever the cap, and emits at most [n / min_samples] segments. *)
Theorem every_pass_shrinks_the_pool (g : G) (data : list point) (st : state) :
  run svd neighborhood_radius min_samples threshold g data = Ok st ->
  (forall s s' : state,
      loop_body s = Ok s' ->
      length (removed_indices s) + length (points s') = length (points s)
      /\ 1 <= length (removed_indices s)
      /\ (if accepts s
          then (min_samples <= Z.of_nat (length (removed_indices s)))%Z
          else removed_indices s = [seed_index s]))
  /\ iter_count st + length (points st) <= length data
  /\ iter_count st <= length data
  /\ ((0 < min_samples)%Z ->
      (Z.of_nat (length (lines st))
       <= Z.of_nat (length data) / min_samples)%Z).
Proof.
  intros Erun.
  assert (Hpass : forall s s' : state,
             loop_body s = Ok s' ->
             length (removed_indices s) + length (points s')
             = length (points s)
             /\ 1 <= length (removed_indices s)
             /\ (if accepts s
                 then (min_samples
                       <= Z.of_nat (length (removed_indices s)))%Z
                 else removed_indices s = [seed_index s])).
  { intros s s' Eb. split; [apply loop_body_length, Eb|].
    apply loop_body_ok in Eb. tauto. }
  split; [exact Hpass|].
  set (n := length data).
  set (P := fun s : state =>
              iter_count s + length (points s) <= n
              /\ (Z.of_nat (length (lines s)) * Z.max 0 min_samples
                  + Z.of_nat (length (points s)) <= Z.of_nat n)%Z).
  destruct (while_loop_ind P) with (fuel := max_iterations)
    (st := init g data) (st' := st) as [[Hit Hseg] _].
  - intros s s' _ [Hi Hs] Eb. destruct (Hpass s s' Eb) as [Hlen [Hone Hacc]].
    apply loop_body_ok in Eb.
    destruct Eb as [_ [Hic [_ [Hl [Hla _]]]]].
    split; [lia|]. rewrite Hl, length_app, Hla.
    destruct (accepts s); [|rewrite Nat.add_0_r; lia].
    rewrite Nat2Z.inj_add, Z.mul_add_distr_r. simpl Z.of_nat. lia.
  - unfold P, n. simpl. lia.
  - exact Erun.
  - split; [exact Hit|]. split; [lia|]. intros Hms.
    apply Z.div_le_lower_bound; [exact Hms|].
    rewrite Z.max_r in Hseg by lia. lia.
Qed.

(** C1 (as the code has it).  No input is rejected: there is no check before
    the loop and no error for a bad configuration.  On an empty point
    collection, whatever the radius and the threshold, and for every
    [min_samples] that is not negative, the guard fails at once and the call
    returns the empty list of segments after no pass of the loop. *)
Theorem empty_input_returns_no_segments (g : G) :
  (0 <= min_samples)%Z ->
  run svd neighborhood_radius min_samples threshold g [] = Ok (init g [])
  /\ run_local_ransac svd neighborhood_radius min_samples threshold g []
     = Ok [].
Proof.
  intros Hms.
  assert (E : run svd neighborhood_radius min_samples threshold g []
              = Ok (init g [])).
  { apply while_loop_stop, loop_guard_false. left. simpl. exact Hms. }
  split; [exact E|]. unfold run_local_ransac. rewrite E. reflexivity.
Qed.

(** *** Which rows a pass leaves in the pool *)

(** Deleting at an index array keeps, in order, the rows at the positions
    that are not listed. *)
Lemma delete_from_filter {A : Type} (d : A) (a : list A) : forall i r,
  Np.delete_from i a r
  = map (fun j => nth (j - i) a d)
        (filter (fun j => negb (existsb (Nat.eqb j) r)) (seq i (length a))).
Proof.
  induction a as [|x a IH]; intros i r; simpl; [reflexivity|].
  assert (E : map (fun j => nth (j - i) (x :: a) d)
                (filter (fun j => negb (existsb (Nat.eqb j) r))
                        (seq (S i) (length a)))
              = Np.delete_from (S i) a r).
  { rewrite (IH (S i) r). apply map_ext_in. intros j Hj.
    apply filter_In in Hj. destruct Hj as [Hj _]. apply in_seq in Hj.
    replace (j - i) with (S (j - S i)) by lia. reflexivity. }
  destruct (existsb (Nat.eqb i) r); simpl.
  - symmetry. exact E.
  - rewrite Nat.sub_diag. f_equal. symmetry. exact E.
Qed.

Lemma delete_many_kept {A : Type} (d : A) (a : list A) (r : list nat) :
  Np.delete_many a r
  = Np.take d a (filter (fun j => negb (existsb (Nat.eqb j) r))
                        (seq 0 (length a))).
Proof.
  unfold Np.delete_many, Np.take. rewrite (delete_from_filter d).
  apply map_ext. intros j. now rewrite Nat.sub_0_r.
Qed.

Lemma inlier_rows_In (st : state) (mean direction : point) (i : nat) :
  In i (inlier_rows st mean direction) <->
  exists k, nth_error (neighbourhood st) k = Some i
            /\ In k (inliers_idx threshold (local_points_of st)
                                 mean direction).
Proof.
  unfold Ransac.inlier_rows, Np.take. rewrite in_map_iff.
  split; intros [k [E Hk]]; exists k; split; try exact Hk.
  - subst i. apply nth_error_nth'. apply inliers_idx_lt in Hk.
    now rewrite local_points_length in Hk.
  - apply nth_error_nth. exact E.
Qed.

(** C4.  A completed pass leaves in the pool, in their order, exactly the
    rows whose positions it does not remove.  What it removes is the seed
    alone when the neighbourhood has fewer than [min_samples] points and
    when the fit has fewer than [min_samples] inliers; when the fit has at
    least [min_samples] inliers it is the rows of the neighbourhood
    classified as inliers, and no other row: the rest of the neighbourhood
    stays in the pool. *)
Theorem pass_removes_inliers_or_seed (st st' : state) :
  loop_body st = Ok st' ->
  let gone := removed_indices st in
  points st'
  = Np.take Np.zero3 (points st)
            (filter (fun i => negb (existsb (Nat.eqb i) gone))
                    (seq 0 (length (points st))))
  /\ ((is_noise st = true /\ gone = [seed_index st])
      \/ (is_noise st = false
          /\ exists mean direction,
               fit_line_segment svd (local_points_of st)
               = Ok (mean, direction)
               /\ ((enough_inliers st mean direction = true
                    /\ gone = inlier_rows st mean direction)
                   \/ (enough_inliers st mean direction = false
                       /\ gone = [seed_index st]))))
  /\ (forall mean direction i,
        In i (inlier_rows st mean direction) <->
        exists k, nth_error (neighbourhood st) k = Some i
                  /\ In k (inliers_idx threshold (local_points_of st)
                                       mean direction)).
Proof.
  intros Eb gone. split; [|split].
  - destruct (loop_body_ok st st' Eb) as [_ [_ [Hp _]]].
    rewrite Hp. apply delete_many_kept.
  - apply loop_body_cases in Eb. destruct Eb as [_ [_ [_ Hc]]].
    subst gone. unfold Ransac.removed_indices.
    destruct Hc as [[En _]|[En [mean [dir [Efit Hc]]]]]; rewrite En.
    + left. auto.
    + right. split; [reflexivity|]. exists mean, dir.
      split; [exact Efit|]. rewrite Efit.
      destruct Hc as [[Ee _]|[Ee _]]; rewrite Ee; [left|right]; auto.
  - intros mean direction i. apply inlier_rows_In.
Qed.

(** *** The rows of the input over a run *)

Lemma take_seq {A : Type} (d : A) (a : list A) :
  Np.take d a (seq 0 (length a)) = a.
Proof.
  unfold Np.take. induction a as [|x a IH]; simpl; [reflexivity|].
  f_equal. rewrite <- seq_shift, map_map. exact IH.
Qed.

(** What a completed pass emits and removes, on the rows of the pool. *)
Lemma pass_event (st st' : state) :
  loop_body st = Ok st' ->
  (emitted st = None /\ removed_indices st = [seed_index st])
  \/ (exists mean direction seg,
        emitted st = Some seg
        /\ removed_indices st = inlier_rows st mean direction
        /\ segment_of (Np.take Np.zero3 (points st)
                               (inlier_rows st mean direction))
                      mean direction = Ok seg).
Proof.
  intros Eb. apply loop_body_cases in Eb. destruct Eb as [_ [_ [_ Hc]]].
  unfold Ransac.emitted, Ransac.removed_indices.
  destruct Hc as [[En _]|[En [mean [dir [Efit Hc]]]]]; rewrite En;
    [left; auto|].
  rewrite Efit.
  destruct Hc as [[Ee [seg [Eseg _]]]|[Ee _]]; rewrite Ee; [|left; auto].
  right. exists mean, dir, seg. rewrite Eseg.
  split; [reflexivity|]. split; [reflexivity|].
  unfold Ransac.inlier_rows. rewrite NpFacts.take_take; [exact Eseg|].
  intros k Hk. apply inliers_idx_lt in Hk.
  now rewrite local_points_length in Hk.
Qed.

Lemma segments_of_cons (ev : event) (evs : list event) :
  segments_of (ev :: evs)
  = match ev_segment ev with Some seg => [seg] | None => [] end
    ++ segments_of evs.
Proof. simpl. destruct (ev_segment ev); reflexivity. Qed.

Lemma history_inv (data : list point) (fuel : nat) :
  forall (st : state) (ids : list nat) evs ids' (st' : state),
    points st = Np.take Np.zero3 data ids ->
    history svd neighborhood_radius min_samples threshold fuel st ids
    = (evs, ids', st') ->
    Permutation (concat (map ev_rows evs) ++ ids') ids
    /\ points st' = Np.take Np.zero3 data ids'
    /\ lines st' = lines st ++ segments_of evs
    /\ Forall (event_on data) evs
    /\ iter_count st' = iter_count st + length evs
    /\ (forall st'' : state, while_loop fuel st = Ok st'' -> st'' = st').
Proof.
  induction fuel as [|fuel IH]; intros st ids evs ids' st' Hpool; simpl;
    destruct (loop_guard st) eqn:Eg;
    try (intros E; injection E as <- <- <-; simpl;
         rewrite app_nil_r, Nat.add_0_r;
         repeat split; auto; try discriminate;
         intros st'' E; now injection E).
  destruct (loop_body st) as [st1|e|] eqn:Eb; cbn [bind];
    try (intros E; injection E as <- <- <-; simpl;
         rewrite app_nil_r, Nat.add_0_r;
         repeat split; auto; discriminate).
  set (r := removed_indices st).
  destruct (history svd neighborhood_radius min_samples threshold fuel st1
              (Np.delete_many ids r)) as [[evs1 ids1] st2] eqn:Eh.
  intros E. injection E as <- <- <-.
  destruct (loop_body_ok st st1 Eb)
    as [Hpos [Hit [Hp [Hl [_ [Hone _]]]]]].
  assert (Hlen : length ids = length (points st))
    by (rewrite Hpool; symmetry; apply NpFacts.take_length).
  assert (Hr : forall j, In j r -> j < length ids).
  { intros j Hj. rewrite Hlen. eapply removed_indices_lt; eauto. }
  assert (Hpool1 : points st1 = Np.take Np.zero3 data (Np.delete_many ids r)).
  { rewrite Hp, Hpool. symmetry. apply NpFacts.take_delete_many. }
  destruct (IH st1 (Np.delete_many ids r) evs1 ids1 st2 Hpool1 Eh)
    as [Hperm [Hp2 [Hl2 [Hev [Hit2 Hrun]]]]].
  split; [|split; [exact Hp2|split; [|split; [|split]]]].
  - simpl. rewrite <- app_assoc.
    eapply Permutation_trans; [apply Permutation_app_head, Hperm|].
    apply NpFacts.delete_many_perm; [apply removed_indices_NoDup|exact Hr].
  - rewrite Hl2, Hl, segments_of_cons, app_assoc. reflexivity.
  - constructor; [|exact Hev]. unfold event_on. cbn [ev_rows ev_segment].
    split.
    + intros E0. apply (f_equal (@length nat)) in E0.
      rewrite NpFacts.take_length in E0. fold r in Hone. simpl in E0. lia.
    + destruct (pass_event st st1 Eb)
        as [[Ee Er]|[mean [dir [seg [Ee [Er Eseg]]]]]]; rewrite Ee.
      * exists (nth (seed_index st) ids 0). unfold r. rewrite Er.
        reflexivity.
      * exists mean, dir. unfold r. rewrite Er.
        rewrite NpFacts.take_take, <- Hpool; [exact Eseg|].
        intros k Hk. apply Hr. unfold r. rewrite Er. exact Hk.
  - simpl. lia.
  - exact Hrun.
Qed.

(** A run of [fuel + k] passes is a run of [fuel] passes followed by one of
    [k] passes. *)
Lemma history_app (fuel k : nat) :
  forall (st : state) (ids : list nat) evs1 ids1 (st1 : state)
         evs2 ids2 (st2 : state),
    history svd neighborhood_radius min_samples threshold fuel st ids
    = (evs1, ids1, st1) ->
    history svd neighborhood_radius min_samples threshold k st1 ids1
    = (evs2, ids2, st2) ->
    history svd neighborhood_radius min_samples threshold (fuel + k) st ids
    = (evs1 ++ evs2, ids2, st2).
Proof.
  induction fuel as [|fuel IH]; intros st ids evs1 ids1 st1 evs2 ids2 st2.
  - simpl. destruct (loop_guard st); intros E; injection E as <- <- <-;
      auto.
  - simpl. destruct (loop_guard st) eqn:Eg.
    + destruct (loop_body st) as [s1|e|] eqn:Eb.
      * destruct (history svd neighborhood_radius min_samples threshold
                    fuel s1 _) as [[evs ids'] s'] eqn:Eh.
        intros E. injection E as <- <- <-. intros E2.
        rewrite (IH _ _ _ _ _ _ _ _ Eh E2). reflexivity.
      * intros E. injection E as <- <- <-.
        destruct k; simpl; rewrite Eg, ?Eb; intros E; injection E as <- <- <-;
          reflexivity.
      * intros E. injection E as <- <- <-.
        destruct k; simpl; rewrite Eg, ?Eb; intros E; injection E as <- <- <-;
          reflexivity.
    + intros E. injection E as <- <- <-.
      destruct k; simpl; rewrite Eg; intros E; injection E as <- <- <-;
        reflexivity.
Qed.

(** C2.  Over any number of passes of a run on [data], with [evs] the
    completed passes, [ids] the input rows still in the pool and [st] the
    state reached: the rows taken out by the passes, together with the rows
    still in the pool, are the rows of the input, each exactly once; so the
    inlier sets of the emitted segments are pairwise disjoint sets of input
    rows, and no row that was taken out is in the pool afterwards.  The pool
    is the input at the rows that remain, the segments in [lines] are those
    of the accepting passes, each spanned by the projections of the rows its
    pass took out, and the pool after further passes is contained in the
    pool before them. *)
Theorem consumed_rows_partition_the_input
  (g : G) (data : list point) (fuel : nat)
  (evs : list event) (ids : list nat) (st : state) :
  history svd neighborhood_radius min_samples threshold fuel (init g data)
          (seq 0 (length data)) = (evs, ids, st) ->
  let rows := concat (map ev_rows evs) in
  NoDup (rows ++ ids)
  /\ (forall i, In i (rows ++ ids) <-> i < length data)
  /\ points st = Np.take Np.zero3 data ids
  /\ lines st = segments_of evs
  /\ Forall (event_on data) evs
  /\ (forall st' : state,
        while_loop fuel (init g data) = Ok st' -> st' = st)
  /\ (forall k evs' ids' (st' : state),
        history svd neighborhood_radius min_samples threshold (fuel + k)
                (init g data) (seq 0 (length data)) = (evs', ids', st') ->
        incl ids' ids /\ length ids' <= length ids).
Proof.
  intros Eh rows.
  assert (Hpool : points (init g data)
                  = Np.take Np.zero3 data (seq 0 (length data)))
    by (symmetry; apply take_seq).
  destruct (history_inv data fuel _ _ _ _ _ Hpool Eh)
    as [Hperm [Hp [Hl [Hev [_ Hrun]]]]].
  fold rows in Hperm.
  split; [|split; [|split; [exact Hp|split; [exact Hl|split;
                                   [exact Hev|split; [exact Hrun|]]]]]].
  - eapply Permutation_NoDup; [apply Permutation_sym, Hperm|apply seq_NoDup].
  - intros i. split; intros Hi.
    + apply (Permutation_in i Hperm), in_seq in Hi. lia.
    + apply (Permutation_in i (Permutation_sym Hperm)), in_seq. lia.
  - intros k evs' ids' st' Eh'.
    destruct (history svd neighborhood_radius min_samples threshold k st ids)
      as [[evs2 ids2] st2] eqn:Ek.
    rewrite (history_app fuel k _ _ _ _ _ _ _ _ Eh Ek) in Eh'.
    injection Eh' as <- <- <-.
    destruct (history_inv data k _ _ _ _ _ Hp Ek) as [Hperm2 _].
    split.
    + intros i Hi. apply (Permutation_in i Hperm2), in_or_app. now right.
    + apply Permutation_length in Hperm2. rewrite length_app in Hperm2. lia.
Qed.

(** *** Inputs without neighbours *)

Local Abbreviation isolated := (isolated neighborhood_radius).
Local Abbreviation apart := (apart neighborhood_radius).

Lemma isolated_nth (a : list point) : forall i j p q,
  isolated a = true ->
  nth_error a i = Some p -> nth_error a j = Some q -> i <> j ->
  (Np.norm (Np.sub3 p q) <? neighborhood_radius)%float = false.
Proof.
  induction a as [|x a IH]; intros i j p q Hiso Hi Hj Hne.
  - destruct i; discriminate.
  - simpl in Hiso. apply andb_true_iff in Hiso. destruct Hiso as [Hx Ha].
    rewrite forallb_forall in Hx.
    destruct i as [|i], j as [|j]; simpl in Hi, Hj.
    + congruence.
    + injection Hi as <-. apply nth_error_In in Hj. apply Hx in Hj.
      unfold Ransac.apart in Hj. apply andb_true_iff in Hj.
      destruct Hj as [Hj _]. now apply negb_true_iff in Hj.
    + injection Hj as <-. apply nth_error_In in Hi. apply Hx in Hi.
      unfold Ransac.apart in Hi. apply andb_true_iff in Hi.
      destruct Hi as [_ Hi]. now apply negb_true_iff in Hi.
    + apply (IH i j); auto.
Qed.

Lemma isolated_delete (a : list point) : forall i,
  isolated a = true -> isolated (Np.delete a i) = true.
Proof.
  unfold Np.delete.
  induction a as [|x a IH]; intros i Hiso; [now destruct i|].
  simpl in Hiso. apply andb_true_iff in Hiso. destruct Hiso as [Hx Ha].
  destruct i as [|i]; [exact Ha|]. cbn [firstn skipn app Ransac.isolated].
  apply andb_true_iff. split; [|apply IH, Ha].
  rewrite forallb_forall in *. intros q Hq. apply Hx.
  apply in_app_or in Hq. destruct Hq as [Hq|Hq].
  - rewrite <- (firstn_skipn i a). apply in_or_app. now left.
  - rewrite <- (firstn_skipn (S i) a). apply in_or_app. now right.
Qed.

(** With no neighbours, nothing but the seed can be in the neighbourhood. *)
Lemma isolated_neighbourhood (st : state) (j : nat) :
  isolated (points st) = true ->
  In j (neighbourhood st) -> j = seed_index st.
Proof.
  intros Hiso Hj. destruct (Nat.eq_dec j (seed_index st)) as [|Hne]; auto.
  exfalso. unfold Ransac.neighbourhood, Ransac.local_indices in Hj.
  apply NpFacts.where_In in Hj. unfold Ransac.dists in Hj.
  rewrite map_map, nth_error_map in Hj.
  destruct (nth_error (points st) j) as [p|] eqn:Ep; simpl in Hj;
    [|discriminate Hj].
  injection Hj as Hj.
  assert (Hlen : 0 < length (points st)).
  { assert (j < length (points st)) by (apply nth_error_Some; congruence).
    lia. }
  pose proof (seed_index_lt st Hlen) as Hs.
  assert (Es : nth_error (points st) (seed_index st) = Some (seed_of st))
    by (apply nth_error_nth', Hs).
  rewrite (isolated_nth _ _ _ _ _ Hiso Ep Es Hne) in Hj. discriminate.
Qed.

Lemma isolated_neighbourhood_length (st : state) :
  isolated (points st) = true -> length (neighbourhood st) <= 1.
Proof.
  intros Hiso.
  pose proof (NpFacts.where_NoDup
                (map (fun d => (d <? neighborhood_radius)%float)
                     (dists (points st) (seed_of st)))) as Hnd.
  fold (local_indices neighborhood_radius (points st) (seed_of st)) in Hnd.
  fold (neighbourhood st) in Hnd.
  pose proof (isolated_neighbourhood st) as Hall.
  destruct (neighbourhood st) as [|a [|b l]]; simpl; try lia.
  exfalso. inversion Hnd as [|? ? Hna _]; subst. apply Hna.
  rewrite (Hall a), (Hall b); simpl; auto.
Qed.

(** So a pass on such a pool rejects the seed as noise. *)
Lemma isolated_pass (st : state) :
  isolated (points st) = true -> (2 <= min_samples)%Z ->
  loop_guard st = true ->
  is_noise st = true
  /\ loop_body st
     = Ok (mkState (Np.delete (points st) (seed_index st)) (lines st)
                   (S (iter_count st))
                   (snd (draw (rng st) (length (points st))))).
Proof.
  intros Hiso Hms Hg. apply loop_guard_true in Hg. destruct Hg as [Hlen _].
  assert (Hn : is_noise st = true).
  { unfold Ransac.is_noise. apply Z.ltb_lt.
    pose proof (isolated_neighbourhood_length st Hiso). lia. }
  split; [exact Hn|]. revert Hn.
  unfold Ransac.loop_body, randint, Ransac.is_noise, Ransac.neighbourhood,
    Ransac.seed_of, Ransac.seed_index.
  destruct (length (points st) =? 0) eqn:E0;
    [apply Nat.eqb_eq in E0; lia|].
  destruct (draw (rng st) (length (points st))) as [idx g']. cbn [bind fst snd].
  intros ->. reflexivity.
Qed.

Lemma isolated_loop (fuel : nat) : forall st : state,
  isolated (points st) = true -> (2 <= min_samples)%Z ->
  iter_count st <= max_iterations ->
  max_iterations <= iter_count st + fuel ->
  exists st' : state,
    while_loop fuel st = Ok st'
    /\ lines st' = lines st
    /\ loop_guard st' = false
    /\ iter_count st' <= max_iterations
    /\ iter_count st' + length (points st')
       = iter_count st + length (points st)
    /\ isolated (points st') = true.
Proof.
  induction fuel as [|fuel IH]; intros st Hiso Hms Hcap Hfuel.
  - exists st. assert (Hg : loop_guard st = false)
      by (apply loop_guard_false; right; lia).
    rewrite (while_loop_stop 0 st Hg). repeat split; auto.
  - destruct (loop_guard st) eqn:Hg.
    2:{ exists st. rewrite (while_loop_stop _ st Hg). repeat split; auto. }
    destruct (isolated_pass st Hiso Hms Hg) as [_ Eb].
    rewrite (while_loop_pass _ _ Hg), Eb. cbn [bind].
    pose proof (proj1 (loop_guard_true st) Hg) as [Hlen Hlt].
    pose proof (loop_body_length _ _ Eb) as Hl.
    destruct (loop_body_ok _ _ Eb) as [Hpos [_ [_ [_ [_ [_ Hrm]]]]]].
    assert (Hacc : accepts st = false).
    { unfold Ransac.accepts.
      now rewrite (proj1 (isolated_pass st Hiso Hms Hg)). }
    rewrite Hacc in Hrm. rewrite Hrm in Hl. cbn [points length] in Hl.
    match goal with
    | |- exists st', while_loop fuel ?s1 = _ /\ _ =>
        destruct (IH s1) as [st' [Erun [Hlines [Hg' [Hc' [Hsum Hiso']]]]]]
    end.
    + cbn [points]. apply isolated_delete, Hiso.
    + exact Hms.
    + cbn [iter_count]. lia.
    + cbn [iter_count]. lia.
    + exists st'. cbn [points lines iter_count] in *.
      repeat split; auto. lia.
Qed.

(** C8 (as the code has it).  On an input in which no point is within the
    radius of another, with [min_samples] at least two, every pass finds no
    neighbour of its seed, rejects the seed as noise and removes it alone;
    the call returns no segment.  The pool is drained to at most
    [min_samples] points when the input has at most [min_samples + 5000]
    points; on a larger input the loop stops at the cap of 5000 passes with
    the rest of the pool left. *)
Theorem isolated_input_yields_no_segment (g : G) (data : list point) :
  isolated data = true -> (2 <= min_samples)%Z ->
  exists st : state,
    run svd neighborhood_radius min_samples threshold g data = Ok st
    /\ run_local_ransac svd neighborhood_radius min_samples threshold g data
       = Ok []
    /\ lines st = []
    /\ iter_count st + length (points st) = length data
    /\ ((Z.of_nat (length (points st)) <= min_samples)%Z
        \/ iter_count st = max_iterations)
    /\ ((Z.of_nat (length data) <= min_samples + Z.of_nat max_iterations)%Z
        -> (Z.of_nat (length (points st)) <= min_samples)%Z)
    /\ (forall s : state,
          isolated (points s) = true -> loop_guard s = true ->
          (forall j, In j (neighbourhood s) -> j = seed_index s)
          /\ is_noise s = true
          /\ loop_body s
             = Ok (mkState (Np.delete (points s) (seed_index s)) (lines s)
                           (S (iter_count s))
                           (snd (draw (rng s) (length (points s)))))
          /\ isolated (Np.delete (points s) (seed_index s)) = true).
Proof.
  intros Hiso Hms.
  destruct (isolated_loop max_iterations (init g data) Hiso Hms)
    as [st [Erun [Hl [Hg [Hcap [Hsum _]]]]]];
    [apply Nat.le_0_l|apply Nat.le_refl|].
  exists st. cbn [init points lines iter_count] in Hl, Hsum.
  apply loop_guard_false in Hg.
  split; [exact Erun|]. split; [|split; [exact Hl|split; [exact Hsum|]]].
  { unfold run_local_ransac, run. rewrite Erun. cbn [bind]. now rewrite Hl. }
  split; [destruct Hg; [now left|right; lia]|].
  split; [intros Hn; destruct Hg; lia|].
  intros s Hs Hgs. split; [intros j; apply isolated_neighbourhood, Hs|].
  destruct (isolated_pass s Hs Hms Hgs) as [Hn Eb].
  split; [exact Hn|]. split; [exact Eb|]. apply isolated_delete, Hs.
Qed.

(** *** Smallest and largest projection *)

Local Open Scope float_scope.

Lemma minimum_cases (a b : float) :
  Np.minimum a b = a \/ Np.minimum a b = b.
Proof. unfold Np.minimum. destruct ((a <=? b) || is_nan a); auto. Qed.

Lemma maximum_cases (a b : float) :
  Np.maximum a b = a \/ Np.maximum a b = b.
Proof. unfold Np.maximum. destruct ((b <=? a) || is_nan a); auto. Qed.

Lemma minimum_lower (a b : float) :
  Np.not_nan a -> Np.not_nan b ->
  (Np.minimum a b <=? a) = true /\ (Np.minimum a b <=? b) = true.
Proof.
  unfold Np.not_nan, Np.minimum. intros Ha Hb. rewrite Ha, orb_false_r.
  destruct (a <=? b) eqn:E.
  - split; [apply FloatOrder.leb_refl, Ha|exact E].
  - split; [apply FloatOrder.leb_total; assumption
           |apply FloatOrder.leb_refl, Hb].
Qed.

Lemma maximum_upper (a b : float) :
  Np.not_nan a -> Np.not_nan b ->
  (a <=? Np.maximum a b) = true /\ (b <=? Np.maximum a b) = true.
Proof.
  unfold Np.not_nan, Np.maximum. intros Ha Hb. rewrite Ha, orb_false_r.
  destruct (b <=? a) eqn:E.
  - split; [apply FloatOrder.leb_refl, Ha|exact E].
  - split; [apply FloatOrder.leb_total; assumption
           |apply FloatOrder.leb_refl, Hb].
Qed.

Lemma fold_minimum_In (l : list float) : forall x,
  In (fold_left Np.minimum l x) (x :: l).
Proof.
  induction l as [|y l IH]; intros x; simpl; [now left|].
  destruct (IH (Np.minimum x y)) as [E|Hin]; [|now right; right].
  rewrite <- E. destruct (minimum_cases x y) as [-> | ->]; auto.
Qed.

Lemma fold_maximum_In (l : list float) : forall x,
  In (fold_left Np.maximum l x) (x :: l).
Proof.
  induction l as [|y l IH]; intros x; simpl; [now left|].
  destruct (IH (Np.maximum x y)) as [E|Hin]; [|now right; right].
  rewrite <- E. destruct (maximum_cases x y) as [-> | ->]; auto.
Qed.

Lemma fold_minimum_lower (l : list float) : forall x,
  Np.not_nan x -> Forall Np.not_nan l ->
  Forall (fun t => (fold_left Np.minimum l x <=? t) = true) (x :: l).
Proof.
  induction l as [|y l IH]; intros x Hx Hl; simpl.
  - constructor; [apply FloatOrder.leb_refl, Hx|constructor].
  - inversion Hl as [|? ? Hy Hl']; subst.
    destruct (minimum_lower x y Hx Hy) as [Hmx Hmy].
    assert (Hm : Np.not_nan (Np.minimum x y))
      by (destruct (minimum_cases x y) as [-> | ->]; assumption).
    specialize (IH _ Hm Hl'). inversion IH as [|? ? Hfm Hrest]; subst.
    constructor; [eapply FloatOrder.leb_trans; eauto|].
    constructor; [eapply FloatOrder.leb_trans; eauto|exact Hrest].
Qed.

Lemma fold_maximum_upper (l : list float) : forall x,
  Np.not_nan x -> Forall Np.not_nan l ->
  Forall (fun t => (t <=? fold_left Np.maximum l x) = true) (x :: l).
Proof.
  induction l as [|y l IH]; intros x Hx Hl; simpl.
  - constructor; [apply FloatOrder.leb_refl, Hx|constructor].
  - inversion Hl as [|? ? Hy Hl']; subst.
    destruct (maximum_upper x y Hx Hy) as [Hmx Hmy].
    assert (Hm : Np.not_nan (Np.maximum x y))
      by (destruct (maximum_cases x y) as [-> | ->]; assumption).
    specialize (IH _ Hm Hl'). inversion IH as [|? ? Hfm Hrest]; subst.
    constructor; [eapply FloatOrder.leb_trans; eauto|].
    constructor; [eapply FloatOrder.leb_trans; eauto|exact Hrest].
Qed.

(** [np.min] and [np.max] return an element of the array, below and above
    every element when the array holds numbers only. *)
Lemma np_min_spec (ts : list float) (lo : float) :
  Np.min ts = Ok lo ->
  In lo ts /\ (Forall Np.not_nan ts -> Forall (fun t => (lo <=? t) = true) ts).
Proof.
  destruct ts as [|x l]; simpl; [discriminate|].
  intros E. injection E as <-. split; [apply fold_minimum_In|].
  intros Hn. inversion Hn; subst. now apply fold_minimum_lower.
Qed.

Lemma np_max_spec (ts : list float) (hi : float) :
  Np.max ts = Ok hi ->
  In hi ts /\ (Forall Np.not_nan ts -> Forall (fun t => (t <=? hi) = true) ts).
Proof.
  destruct ts as [|x l]; simpl; [discriminate|].
  intros E. injection E as <-. split; [apply fold_maximum_In|].
  intros Hn. inversion Hn; subst. now apply fold_maximum_upper.
Qed.

(** C3.  A pass that accepts a fit [(mean, direction)] projects each inlier
    [p] to [t = dot(p - mean, direction)] and appends the segment from
    [mean + direction * min(t)] to [mean + direction * max(t)]: both
    endpoints are points [mean + direction * t] of the fitted line, for
    projections [t] of two of the inliers, and the projection of every
    inlier lies between the two (the projections being numbers). *)
Theorem segment_spans_inlier_projections (st st' : state) :
  loop_body st = Ok st' -> accepts st = true ->
  exists mean direction lo hi,
    fit_line_segment svd (local_points_of st) = Ok (mean, direction)
    /\ let inlier_points :=
         Np.take Np.zero3 (local_points_of st)
                 (inliers_idx threshold (local_points_of st) mean direction)
       in
       let ts := map (fun p => Np.dot (Np.sub3 p mean) direction)
                     inlier_points in
       inlier_points
       = Np.take Np.zero3 (points st) (inlier_rows st mean direction)
       /\ Np.min ts = Ok lo /\ Np.max ts = Ok hi
       /\ lines st'
          = lines st ++ [(Np.add3 mean (Np.scale3 direction lo),
                          Np.add3 mean (Np.scale3 direction hi))]
       /\ In lo ts /\ In hi ts
       /\ (Forall Np.not_nan ts ->
           Forall (fun t => (lo <=? t) = true /\ (t <=? hi) = true) ts).
Proof.
  intros Eb Hacc. apply loop_body_cases in Eb.
  destruct Eb as [_ [_ [_ Hc]]]. unfold Ransac.accepts in Hacc.
  destruct Hc as [[En _]|[En [mean [dir [Efit Hc]]]]];
    rewrite En in Hacc; [discriminate|].
  rewrite Efit in Hacc. cbn [negb andb] in Hacc.
  destruct Hc as [[_ [seg [Eseg [_ Hl]]]]|[Ee _]]; [|congruence].
  unfold segment_of, projections in Eseg.
  destruct (Np.min _) as [lo| |] eqn:Emin; cbn [bind] in Eseg;
    try discriminate.
  destruct (Np.max _) as [hi| |] eqn:Emax; cbn [bind] in Eseg;
    try discriminate.
  injection Eseg as <-.
  exists mean, dir, lo, hi. split; [exact Efit|]. cbv zeta.
  destruct (np_min_spec _ _ Emin) as [Hlo Hlow].
  destruct (np_max_spec _ _ Emax) as [Hhi Hup].
  split.
  { unfold Ransac.inlier_rows. rewrite NpFacts.take_take; [reflexivity|].
    intros k Hk. apply inliers_idx_lt in Hk.
    now rewrite local_points_length in Hk. }
  repeat split; auto.
  intros Hn. specialize (Hlow Hn). specialize (Hup Hn).
  rewrite Forall_forall in *. intros t Ht. split; auto.
Qed.

Local Close Scope float_scope.

(** *** The two thresholds *)

Lemma local_indices_In (pts : list point) (seed : point) (j : nat) :
  In j (local_indices neighborhood_radius pts seed) <->
  exists p, nth_error pts j = Some p
            /\ (Np.norm (Np.sub3 p seed) <? neighborhood_radius)%float = true.
Proof.
  unfold Ransac.local_indices, Ransac.dists.
  rewrite NpFacts.where_In, map_map, nth_error_map.
  destruct (nth_error pts j) as [p|]; simpl.
  - split; [intros E; injection E as E; eauto|].
    intros [q [Eq E]]. injection Eq as <-. now rewrite E.
  - split; [discriminate|]. intros [q [Eq _]]. discriminate.
Qed.

Lemma inliers_idx_In (lp : list point) (mean direction : point) (k : nat) :
  In k (inliers_idx threshold lp mean direction) <->
  exists p, nth_error lp k = Some p
            /\ (Np.norm (Np.cross (Np.sub3 p mean) direction)
                <? threshold)%float = true.
Proof.
  unfold Ransac.inliers_idx, Ransac.dists_to_line.
  rewrite NpFacts.where_In, !map_map, nth_error_map.
  destruct (nth_error lp k) as [p|]; simpl.
  - split; [intros E; injection E as E; eauto|].
    intros [q [Eq E]]. injection Eq as <-. now rewrite E.
  - split; [discriminate|]. intros [q [Eq _]]. discriminate.
Qed.

(** A point with finite coordinates is at distance zero from itself. *)
Lemma norm_sub_diag (p : point) :
  is_finite (Np.vx p) = true -> is_finite (Np.vy p) = true ->
  is_finite (Np.vz p) = true ->
  Np.norm (Np.sub3 p p) = 0%float.
Proof.
  intros Hx Hy Hz. unfold Np.norm, Np.sub3. cbn [Np.vx Np.vy Np.vz].
  rewrite !FloatOrder.sub_diag by assumption. reflexivity.
Qed.

(** C6.  Both comparisons are strict.  A row of the pool is in the
    neighbourhood exactly when its distance to the seed is below the radius,
    and a row of the neighbourhood is an inlier exactly when the norm of the
    cross product of its offset from the anchor with the direction is below
    the threshold; a distance equal to the bound is outside.  The seed, with
    finite coordinates, is at distance zero from itself and so in its
    neighbourhood for a positive radius.  A rejected row of the
    neighbourhood has a distance to the line at or above the threshold
    (distance and threshold being numbers). *)
Theorem thresholds_are_strict :
  (forall pts seed j,
      In j (local_indices neighborhood_radius pts seed) <->
      exists p, nth_error pts j = Some p
                /\ (Np.norm (Np.sub3 p seed) <? neighborhood_radius)%float
                   = true)
  /\ (forall lp mean direction k,
        In k (inliers_idx threshold lp mean direction) <->
        exists p, nth_error lp k = Some p
                  /\ (Np.norm (Np.cross (Np.sub3 p mean) direction)
                      <? threshold)%float = true)
  /\ (forall pts seed j p,
        nth_error pts j = Some p ->
        (Np.norm (Np.sub3 p seed) =? neighborhood_radius)%float = true ->
        ~ In j (local_indices neighborhood_radius pts seed))
  /\ (forall lp mean direction k p,
        nth_error lp k = Some p ->
        (Np.norm (Np.cross (Np.sub3 p mean) direction) =? threshold)%float
        = true ->
        ~ In k (inliers_idx threshold lp mean direction))
  /\ (forall st : state,
        0 < length (points st) ->
        is_finite (Np.vx (seed_of st)) = true ->
        is_finite (Np.vy (seed_of st)) = true ->
        is_finite (Np.vz (seed_of st)) = true ->
        (0 <? neighborhood_radius)%float = true ->
        Np.norm (Np.sub3 (seed_of st) (seed_of st)) = 0%float
        /\ In (seed_index st) (neighbourhood st))
  /\ (forall lp mean direction k p,
        nth_error lp k = Some p ->
        ~ In k (inliers_idx threshold lp mean direction) ->
        is_nan threshold = false ->
        is_nan (Np.norm (Np.cross (Np.sub3 p mean) direction)) = false ->
        (threshold <=? Np.norm (Np.cross (Np.sub3 p mean) direction))%float
        = true).
Proof.
  split; [exact local_indices_In|]. split; [exact inliers_idx_In|].
  split; [|split; [|split]].
  - intros pts seed j p Ep Eq Hin. apply local_indices_In in Hin.
    destruct Hin as [q [Eq' Hlt]]. rewrite Ep in Eq'. injection Eq' as <-.
    rewrite (FloatOrder.ltb_false_of_eqb _ _ Eq) in Hlt. discriminate.
  - intros lp mean direction k p Ep Eq Hin. apply inliers_idx_In in Hin.
    destruct Hin as [q [Eq' Hlt]]. rewrite Ep in Eq'. injection Eq' as <-.
    rewrite (FloatOrder.ltb_false_of_eqb _ _ Eq) in Hlt. discriminate.
  - intros st Hpos Hx Hy Hz Hr.
    pose proof (norm_sub_diag _ Hx Hy Hz) as E0. split; [exact E0|].
    unfold Ransac.neighbourhood. apply local_indices_In.
    exists (seed_of st). split; [|now rewrite E0].
    apply nth_error_nth', seed_index_lt, Hpos.
  - intros lp mean direction k p Ep Hout Hth Hd.
    apply FloatOrder.leb_of_ltb_false; try assumption.
    destruct (Np.norm (Np.cross (Np.sub3 p mean) direction) <? threshold)%float
      eqn:E; [|reflexivity].
    exfalso. apply Hout, inliers_idx_In. eauto.
Qed.

End Pass.

(* ================================================================== *)
(** ** The caller's array *)

Section MemFacts.

Context {G : Type} `{RandomState G}.
Variable svd : list point -> option Np.mat3.
Variable neighborhood_radius : float.
Variable min_samples : Z.
Variable threshold : float.

Local Abbreviation mstate := (@Mem.mstate G).
Local Abbreviation stands_for := (@Mem.stands_for G).
Local Abbreviation loop_body :=
  (loop_body svd neighborhood_radius min_samples threshold).
Local Abbreviation while_loop :=
  (while_loop svd neighborhood_radius min_samples threshold).
Local Abbreviation loop_guard_mem := (@Mem.loop_guard_mem G min_samples).
Local Abbreviation loop_body_mem :=
  (Mem.loop_body_mem svd neighborhood_radius min_samples threshold).
Local Abbreviation while_loop_mem :=
  (Mem.while_loop_mem svd neighborhood_radius min_samples threshold).
Local Abbreviation run_local_ransac_mem :=
  (Mem.run_local_ransac_mem svd neighborhood_radius min_samples threshold).

(** *** The objects *)

Lemma nth_error_new (h : list Mem.object) (o : Mem.object) :
  nth_error (h ++ [o]) (length h) = Some o.
Proof. rewrite nth_error_app2, Nat.sub_diag by lia. reflexivity. Qed.

Lemma nth_error_kept (h : list Mem.object) (o : Mem.object) (r : Mem.ref)
      (x : Mem.object) :
  nth_error h r = Some x -> nth_error (h ++ [o]) r = Some x.
Proof.
  intros E. rewrite nth_error_app1; [exact E|].
  apply nth_error_Some. congruence.
Qed.

Lemma firstn_new (n0 : nat) (h : list Mem.object) (o : Mem.object) :
  n0 <= length h -> firstn n0 (h ++ [o]) = firstn n0 h.
Proof.
  intros Hn. rewrite firstn_app.
  replace (n0 - length h) with 0 by lia. apply app_nil_r.
Qed.

Lemma store_length (h : list Mem.object) : forall r o,
  length (Mem.store h r o) = length h.
Proof.
  induction h as [|x h IH]; intros [|r] o; simpl; auto.
Qed.

Lemma nth_error_store_same (h : list Mem.object) : forall r o x,
  nth_error h r = Some x -> nth_error (Mem.store h r o) r = Some o.
Proof.
  induction h as [|x h IH]; intros [|r] o y E; simpl in *;
    try discriminate; eauto.
Qed.

Lemma nth_error_store_other (h : list Mem.object) : forall r o r',
  r' <> r -> nth_error (Mem.store h r o) r' = nth_error h r'.
Proof.
  induction h as [|x h IH]; intros [|r] o [|r'] Hne; simpl;
    try reflexivity; try congruence.
  apply IH. congruence.
Qed.

Lemma firstn_store (h : list Mem.object) : forall n0 r o,
  n0 <= r -> firstn n0 (Mem.store h r o) = firstn n0 h.
Proof.
  induction h as [|x h IH]; intros [|n0] [|r] o Hle; simpl;
    try reflexivity; try lia.
  f_equal. apply IH. lia.
Qed.

(** *** Memories a computation leaves the caller's objects alone in *)

Lemma apart_from_refl (n0 : nat) (m : Mem.mem) : Mem.apart_from n0 m m.
Proof.
  split; [reflexivity|]. exists []. split; [now rewrite app_nil_r|constructor].
Qed.

Lemma apart_from_trans (n0 : nat) (m1 m2 m3 : Mem.mem) :
  Mem.apart_from n0 m1 m2 -> Mem.apart_from n0 m2 m3 ->
  Mem.apart_from n0 m1 m3.
Proof.
  intros [E1 [l1 [A1 F1]]] [E2 [l2 [A2 F2]]]. split; [congruence|].
  exists (l1 ++ l2). split.
  - rewrite A2, A1, app_assoc. reflexivity.
  - apply Forall_app. now split.
Qed.

(** Reading an object of the call. *)
Lemma get_array_spec (n0 : nat) (r : Mem.ref) (m : Mem.mem)
      (a : list point) :
  n0 <= r -> nth_error (Mem.objects m) r = Some (Mem.Ndarray a) ->
  exists m', Mem.get_array r m = (m', Ok a)
             /\ Mem.objects m' = Mem.objects m
             /\ Mem.apart_from n0 m m'.
Proof.
  intros Hr E. unfold Mem.get_array, Mem.array_of. rewrite E.
  eexists. split; [reflexivity|]. split; [reflexivity|].
  split; [reflexivity|]. exists [Mem.Read r]. split; [reflexivity|].
  repeat constructor. exact Hr.
Qed.

(** A new object is behind a reference of the call and leaves the others
    as they are. *)
Lemma new_spec (n0 : nat) (o : Mem.object) (m : Mem.mem) :
  n0 <= length (Mem.objects m) ->
  exists m' r, Mem.new o m = (m', Ok r)
               /\ n0 <= r
               /\ nth_error (Mem.objects m') r = Some o
               /\ (forall r' x, nth_error (Mem.objects m) r' = Some x ->
                                nth_error (Mem.objects m') r' = Some x)
               /\ Mem.apart_from n0 m m'.
Proof.
  intros Hn. unfold Mem.new. do 2 eexists. split; [reflexivity|].
  cbn [Mem.objects Mem.accesses]. split; [exact Hn|].
  split; [apply nth_error_new|]. split.
  - intros r' x. apply nth_error_kept.
  - split; [now apply firstn_new|]. eexists. split; [reflexivity|].
    repeat constructor. exact Hn.
Qed.

(** Appending to a list of the call. *)
Lemma list_append_spec (n0 : nat) (r : Mem.ref) (x : segment) (m : Mem.mem)
      (l : list segment) :
  n0 <= r -> nth_error (Mem.objects m) r = Some (Mem.PyList l) ->
  exists m', Mem.list_append r x m = (m', Ok tt)
             /\ nth_error (Mem.objects m') r = Some (Mem.PyList (l ++ [x]))
             /\ (forall r', r' <> r ->
                   nth_error (Mem.objects m') r'
                   = nth_error (Mem.objects m) r')
             /\ Mem.apart_from n0 m m'.
Proof.
  intros Hr E. unfold Mem.list_append, Mem.list_of. rewrite E.
  eexists. split; [reflexivity|]. cbn [Mem.objects Mem.accesses].
  split; [eapply nth_error_store_same; exact E|]. split.
  - intros r' Hne. now apply nth_error_store_other.
  - split; [now apply firstn_store|]. eexists. split; [reflexivity|].
    repeat constructor. exact Hr.
Qed.

Lemma in_memory (m : Mem.mem) (r : Mem.ref) (x : Mem.object) :
  nth_error (Mem.objects m) r = Some x -> r < length (Mem.objects m).
Proof. intros E. apply nth_error_Some. congruence. Qed.

(** The deletion that ends a pass: an array is built from the pool and
    [points] is rebound to it. *)
Lemma rebind_spec (n0 : nat) (m : Mem.mem) (ms : mstate) (pts : list point)
      (ls : list segment) (g : G) (f : list point -> list point) :
  nth_error (Mem.objects m) (Mem.m_points ms) = Some (Mem.Ndarray pts) ->
  nth_error (Mem.objects m) (Mem.m_lines ms) = Some (Mem.PyList ls) ->
  n0 <= Mem.m_points ms -> n0 <= Mem.m_lines ms ->
  exists m' ms',
    Mem.bindM
      (Mem.bindM (Mem.get_array (Mem.m_points ms))
                 (fun a => Mem.new (Mem.Ndarray (f a))))
      (fun points' =>
         Mem.ret (Mem.mkMState points' (Mem.m_lines ms)
                               (S (Mem.m_iter_count ms)) g)) m
    = (m', Ok ms')
    /\ stands_for n0 m' ms'
         (mkState (f pts) ls (S (Mem.m_iter_count ms)) g)
    /\ Mem.apart_from n0 m m'.
Proof.
  intros Ep El Hp Hl.
  destruct (get_array_spec n0 _ m _ Hp Ep) as [m1 [E1 [O1 A1]]].
  assert (Hn : n0 <= length (Mem.objects m1)).
  { rewrite O1. apply in_memory in Ep. lia. }
  destruct (new_spec n0 (Mem.Ndarray (f pts)) m1 Hn)
    as [m2 [r [E2 [Hr [Er [Keep A2]]]]]].
  exists m2, (Mem.mkMState r (Mem.m_lines ms) (S (Mem.m_iter_count ms)) g).
  split; [|split].
  - unfold Mem.bindM, Mem.ret. rewrite E1, E2. reflexivity.
  - unfold Mem.stands_for; cbn. repeat split; auto.
    apply Keep. rewrite O1. exact El.
  - eapply apart_from_trans; eassumption.
Qed.

Lemma bindM_Ok {A B : Type} (c : Mem.M A) (k : A -> Mem.M B)
      (m m1 : Mem.mem) (a : A) :
  c m = (m1, Ok a) -> Mem.bindM c k m = k a m1.
Proof. intros E. unfold Mem.bindM. rewrite E. reflexivity. Qed.

Lemma bindM_unfold {A B : Type} (c : Mem.M A) (k : A -> Mem.M B)
      (m : Mem.mem) :
  Mem.bindM c k m
  = match c m with
    | (m', Ok a) => k a m'
    | (m', Raise e) => (m', Raise e)
    | (m', OutOfFuel) => (m', OutOfFuel)
    end.
Proof. reflexivity. Qed.

Lemma bindM_lift {A B : Type} (r : result A) (k : A -> Mem.M B)
      (m : Mem.mem) :
  Mem.bindM (Mem.lift r) k m
  = match r with
    | Ok a => k a m
    | Raise e => (m, Raise e)
    | OutOfFuel => (m, OutOfFuel)
    end.
Proof. unfold Mem.bindM, Mem.lift. destruct r; reflexivity. Qed.

(** One pass on the memory is one pass on the values, and touches no
    object that existed before the call. *)
Lemma loop_body_mem_spec (n0 : nat) (m : Mem.mem) (ms : mstate) (st : state) :
  stands_for n0 m ms st ->
  Mem.apart_from n0 m (fst (loop_body_mem ms m))
  /\ Mem.outcome_stands_for n0 (fst (loop_body_mem ms m))
                            (snd (loop_body_mem ms m)) (loop_body st).
Proof.
  intros S. unfold Mem.stands_for in S.
  destruct S as (Ep & El & Hp & Hl & Ei & Eg).
  destruct (get_array_spec n0 _ m _ Hp Ep) as [m1 [E1 [O1 A1]]].
  assert (Ep1 : nth_error (Mem.objects m1) (Mem.m_points ms)
                = Some (Mem.Ndarray (points st))) by (rewrite O1; exact Ep).
  assert (El1 : nth_error (Mem.objects m1) (Mem.m_lines ms)
                = Some (Mem.PyList (lines st))) by (rewrite O1; exact El).
  unfold Mem.loop_body_mem, Ransac.loop_body.
  rewrite <- Ei, <- Eg.
  rewrite (bindM_Ok _ _ _ _ _ E1), bindM_lift.
  destruct (randint (Mem.m_rng ms) (length (points st))) as [[idx g]|e|];
    cbn [bind fst snd].
  2,3: split; [exact A1 | reflexivity].
  destruct (Z.of_nat _ <? min_samples)%Z.
  { destruct (rebind_spec n0 m1 ms _ _ g (fun a => Np.delete a idx)
                          Ep1 El1 Hp Hl) as [m2 [ms2 [E2 [S2 A2]]]].
    unfold Mem.np_delete. rewrite E2. cbn [fst snd].
    split; [eapply apart_from_trans; eassumption | exact S2]. }
  rewrite bindM_lift.
  destruct (fit_line_segment svd _) as [[mean direction]|e|];
    cbn [bind fst snd].
  2,3: split; [exact A1 | reflexivity].
  destruct (Z.of_nat _ >=? min_samples)%Z.
  2:{ destruct (rebind_spec n0 m1 ms _ _ g (fun a => Np.delete a idx)
                          Ep1 El1 Hp Hl) as [m2 [ms2 [E2 [S2 A2]]]].
    unfold Mem.np_delete. rewrite E2. cbn [fst snd].
    split; [eapply apart_from_trans; eassumption | exact S2]. }
  rewrite bindM_lift.
  destruct (Np.min _) as [lo|e|]; cbn [bind fst snd].
  2,3: split; [exact A1 | reflexivity].
  rewrite bindM_lift.
  destruct (Np.max _) as [hi|e|]; cbn [bind fst snd].
  2,3: split; [exact A1 | reflexivity].
  destruct (list_append_spec n0 _
              (Np.add3 mean (Np.scale3 direction lo),
               Np.add3 mean (Np.scale3 direction hi)) m1 _ Hl El1)
    as [m2 [E2 [El2 [Other A2]]]].
  assert (Ep2 : nth_error (Mem.objects m2) (Mem.m_points ms)
                = Some (Mem.Ndarray (points st))).
  { rewrite Other; [exact Ep1|]. intros E. rewrite E in Ep1. congruence. }
  rewrite (bindM_Ok _ _ _ _ _ E2).
  destruct (rebind_spec n0 m2 ms _ _ g
              (fun a => Np.delete_many a
                 (Np.take 0
                    (local_indices neighborhood_radius (points st)
                                   (nth idx (points st) Np.zero3))
                    (inliers_idx threshold
                       (Np.take Np.zero3 (points st)
                          (local_indices neighborhood_radius (points st)
                                         (nth idx (points st) Np.zero3)))
                       mean direction)))
              Ep2 El2 Hp Hl) as [m3 [ms3 [E3 [S3 A3]]]].
  unfold Mem.np_delete_many. rewrite E3. cbn [fst snd].
  split; [|exact S3].
  eapply apart_from_trans; [exact A1|].
  eapply apart_from_trans; eassumption.
Qed.

(** The test of line 35 reads the pool and nothing else. *)
Lemma loop_guard_mem_spec (n0 : nat) (m : Mem.mem) (ms : mstate) (st : state) :
  stands_for n0 m ms st ->
  exists m', loop_guard_mem ms m = (m', Ok (loop_guard min_samples st))
             /\ stands_for n0 m' ms st
             /\ Mem.apart_from n0 m m'.
Proof.
  intros S. unfold Mem.stands_for in S.
  destruct S as (Ep & El & Hp & Hl & Ei & Eg).
  destruct (get_array_spec n0 _ m _ Hp Ep) as [m1 [E1 [O1 A1]]].
  exists m1. unfold Mem.loop_guard_mem, Ransac.loop_guard.
  rewrite (bindM_Ok _ _ _ _ _ E1), Ei. split; [reflexivity|].
  split; [|exact A1].
  unfold Mem.stands_for. rewrite O1. repeat split; assumption.
Qed.

(** The loop on the memory is the loop on the values, and touches no object
    that existed before the call. *)
Lemma while_loop_mem_spec (n0 : nat) (fuel : nat) :
  forall (m : Mem.mem) (ms : mstate) (st : state),
    stands_for n0 m ms st ->
    Mem.apart_from n0 m (fst (while_loop_mem fuel ms m))
    /\ Mem.outcome_stands_for n0 (fst (while_loop_mem fuel ms m))
                              (snd (while_loop_mem fuel ms m))
                              (while_loop fuel st).
Proof.
  induction fuel as [|fuel IH]; intros m ms st S;
    destruct (loop_guard_mem_spec n0 m ms st S) as [m1 [E1 [S1 A1]]];
    cbn [Mem.while_loop_mem Ransac.while_loop];
    rewrite (bindM_Ok _ _ _ _ _ E1);
    destruct (loop_guard min_samples st);
    try (split; [exact A1 | exact S1]).
  - split; [exact A1 | exact I].
  - destruct (loop_body_mem_spec n0 m1 ms st S1) as [A2 O2].
    rewrite bindM_unfold.
    destruct (loop_body_mem ms m1) as [m2 [ms2|e|]];
      destruct (loop_body st) as [st2|e'|]; cbn [fst snd] in A2, O2;
      cbn [bind fst snd]; try contradiction.
    + destruct (IH m2 ms2 st2 O2) as [A3 O3].
      split; [|exact O3].
      eapply apart_from_trans; [exact A1|].
      eapply apart_from_trans; eassumption.
    + split; [eapply apart_from_trans; eassumption | exact O2].
    + split; [eapply apart_from_trans; eassumption | exact I].
Qed.

Lemma nth_error_below (n0 : nat) (h h' : list Mem.object) (r : Mem.ref) :
  firstn n0 h' = firstn n0 h -> r < n0 -> nth_error h' r = nth_error h r.
Proof.
  intros E Hr. apply Nat.ltb_lt in Hr.
  assert (E' : nth_error (firstn n0 h') r = nth_error (firstn n0 h) r)
    by now rewrite E.
  rewrite !nth_error_firstn, Hr in E'. exact E'.
Qed.

(** C9.  The call never writes into the array it is given, nor into any
    other object of its caller.  In a memory where arrays and lists are
    objects that can be updated in place, run the function on a reference
    [data] to an array.  When the call ends, by a return or by an
    exception, [data] still refers to the same rows and every object that
    existed before is as it was.  The input is read once, by the copy of
    line 26; every later read, every [np.delete] and every [append] is on
    an object the call created itself.  The value returned is a reference
    to a new list, which holds the segments the function computes from the
    rows of the input. *)
Theorem input_array_is_never_written
  (g : G) (m : Mem.mem) (data : Mem.ref) (a : list point) :
  nth_error (Mem.objects m) data = Some (Mem.Ndarray a) ->
  nth_error (Mem.objects (fst (run_local_ransac_mem g data m))) data
  = Some (Mem.Ndarray a)
  /\ firstn (length (Mem.objects m))
            (Mem.objects (fst (run_local_ransac_mem g data m)))
     = Mem.objects m
  /\ (exists rest,
        Mem.accesses (fst (run_local_ransac_mem g data m))
        = Mem.accesses m ++ Mem.Read data :: rest
        /\ Forall (fun e => length (Mem.objects m) <= Mem.ref_of e) rest)
  /\ match snd (run_local_ransac_mem g data m) with
     | Ok lines =>
         exists segs,
           run_local_ransac svd neighborhood_radius min_samples threshold
                            g a = Ok segs
           /\ length (Mem.objects m) <= lines
           /\ nth_error
                (Mem.objects (fst (run_local_ransac_mem g data m))) lines
              = Some (Mem.PyList segs)
     | Raise e =>
         run_local_ransac svd neighborhood_radius min_samples threshold
                          g a = Raise e
     | OutOfFuel => False
     end.
Proof.
  intros Hdata. set (n0 := length (Mem.objects m)).
  set (m1 := Mem.mkMem (Mem.objects m) (Mem.accesses m ++ [Mem.Read data])).
  assert (E1 : Mem.get_array data m = (m1, Ok a)).
  { unfold Mem.get_array, Mem.array_of. rewrite Hdata. reflexivity. }
  destruct (new_spec n0 (Mem.Ndarray a) m1 (le_n _))
    as [m2 [rp [E2 [Hp [Ep [Keep2 A2]]]]]].
  assert (Hn2 : n0 <= length (Mem.objects m2)).
  { apply in_memory in Ep. lia. }
  destruct (new_spec n0 (Mem.PyList []) m2 Hn2)
    as [m3 [rl [E3 [Hl [El [Keep3 A3]]]]]].
  assert (S3 : stands_for n0 m3 (Mem.mkMState rp rl 0 g) (init g a)).
  { unfold Mem.stands_for, init; cbn. repeat split; auto. }
  destruct (while_loop_mem_spec n0 max_iterations m3 _ _ S3) as [A4 O4].
  assert (Efuel : while_loop max_iterations (init g a) <> OutOfFuel).
  { apply while_loop_fuel. simpl. lia. }
  assert (Ecopy : Mem.ndarray_copy data m = (m2, Ok rp)).
  { unfold Mem.ndarray_copy. rewrite (bindM_Ok _ _ _ _ _ E1). exact E2. }
  unfold Mem.run_local_ransac_mem, Mem.list_new.
  unfold run_local_ransac, run.
  rewrite (bindM_Ok _ _ _ _ _ Ecopy), (bindM_Ok _ _ _ _ _ E3), bindM_unfold.
  set (out := while_loop_mem max_iterations (Mem.mkMState rp rl 0 g) m3) in *.
  assert (A : Mem.apart_from n0 m1 (fst out)).
  { eapply apart_from_trans; [exact A2|].
    eapply apart_from_trans; eassumption. }
  destruct A as [Eobj [rest [Eacc Hrest]]].
  assert (Efst : fst (let (m', r) := out in
                      match r with
                      | Ok ms => Mem.ret (Mem.m_lines ms) m'
                      | Raise e => (m', Raise e)
                      | OutOfFuel => (m', OutOfFuel)
                      end) = fst out).
  { destruct out as [m' [ms|e|]]; reflexivity. }
  rewrite Efst. split; [|split; [|split]].
  - rewrite (nth_error_below n0 _ _ _ Eobj); [exact Hdata|].
    apply in_memory in Hdata. exact Hdata.
  - rewrite Eobj. apply firstn_all.
  - exists rest. split; [|exact Hrest].
    rewrite Eacc. unfold m1; cbn [Mem.accesses].
    rewrite <- app_assoc. reflexivity.
  - destruct out as [m' [ms|e|]];
      destruct (while_loop max_iterations (init g a)) as [st|e'|];
      cbn [fst snd Mem.ret bind] in *; try contradiction.
    + destruct O4 as (_ & El4 & _ & Hl4 & _).
      exists (lines st). repeat split; assumption.
    + now rewrite O4.
Qed.

End MemFacts.

(* ================================================================== *)
(** ** The theorems on concrete runs *)

Module Runs.

Import Np Demo.
Local Open Scope float_scope.

(** Twenty points on the x axis at unit spacing, radius 3, three samples,
    threshold 0.01. *)
Definition line20 : list point := on_x_axis 20 0 1.

Definition line20_first : state := init 0%nat line20.

Definition line20_second : state :=
  Eval vm_compute in
    match loop_body svd_axes 3 3 0.01 line20_first with
    | Ok st => st
    | _ => line20_first
    end.

Definition line20_history : list event * list nat * state :=
  Eval vm_compute in
    history svd_axes 3 3 0.01 max_iterations line20_first (seq 0 20).

Definition line20_events : list event := fst (fst line20_history).
Definition line20_left : list nat := snd (fst line20_history).
Definition line20_last : state := snd line20_history.

(** A caller's memory: a list, and the array of [line20] behind
    reference 1. *)
Definition line20_mem : Mem.mem :=
  Mem.mkMem [Mem.PyList []; Mem.Ndarray line20] [].

(** Ten points a unit apart, radius 0.05, five samples. *)
Definition apart10 : list point := on_x_axis 10 0 1.

(** 5003 points a unit apart, radius 0.05, two samples. *)
Definition apart5003 : list point := on_x_axis 5003 0 1.

Lemma empty_input_returns_no_segments_witness :
  (0 <= 5)%Z /\ run_local_ransac svd_axes 0.5 5 0.05 0%nat [] = Ok [].
Proof.
  assert (Hms : (0 <= 5)%Z) by lia.
  split; [exact Hms|].
  destruct (empty_input_returns_no_segments svd_axes 0.5 5 0.05 0%nat Hms)
    as [_ W].
  exact W.
Defined.

(** C1 as stated fails: an empty input, and a non-positive radius and
    threshold with [min_samples = 1], are accepted and the call returns
    (an empty list), where the claim has it fail. *)
Lemma invalid_input_is_not_rejected :
  run_local_ransac svd_axes 0.5 5 0.05 0%nat [] = Ok []
  /\ run_local_ransac svd_axes (-1) 1 0 0%nat (on_x_axis 3 0 1) = Ok [].
Proof. split; vm_compute; reflexivity. Qed.

Lemma consumed_rows_partition_the_input_witness :
  history svd_axes 3 3 0.01 max_iterations (init 0%nat line20)
          (seq 0 (length line20))
  = (line20_events, line20_left, line20_last)
  /\ NoDup (concat (map ev_rows line20_events) ++ line20_left)
  /\ lines line20_last = segments_of line20_events.
Proof.
  assert (E : history svd_axes 3 3 0.01 max_iterations (init 0%nat line20)
                      (seq 0 (length line20))
              = (line20_events, line20_left, line20_last))
    by (vm_compute; reflexivity).
  split; [exact E|].
  destruct (consumed_rows_partition_the_input svd_axes 3 3 0.01 0%nat
              line20 max_iterations _ _ _ E) as [W1 [_ [_ [W2 _]]]].
  split; [exact W1|exact W2].
Defined.

Lemma segment_spans_inlier_projections_witness :
  loop_body svd_axes 3 3 0.01 line20_first = Ok line20_second
  /\ accepts svd_axes 3 3 0.01 line20_first = true
  /\ length (lines line20_second) = 1%nat.
Proof.
  assert (E : loop_body svd_axes 3 3 0.01 line20_first = Ok line20_second)
    by (vm_compute; reflexivity).
  assert (A : accepts svd_axes 3 3 0.01 line20_first = true)
    by (vm_compute; reflexivity).
  split; [exact E|]. split; [exact A|].
  destruct (segment_spans_inlier_projections svd_axes 3 3 0.01
              line20_first line20_second E A)
    as [mean [direction [lo [hi [_ [_ [_ [_ [Hl _]]]]]]]]].
  rewrite Hl. reflexivity.
Defined.

Lemma pass_removes_inliers_or_seed_witness :
  loop_body svd_axes 3 3 0.01 line20_first = Ok line20_second
  /\ points line20_second
     = take zero3 (points line20_first)
            (filter (fun i => negb (existsb (Nat.eqb i)
                       (removed_indices svd_axes 3 3 0.01 line20_first)))
                    (seq 0 (length (points line20_first)))).
Proof.
  assert (E : loop_body svd_axes 3 3 0.01 line20_first = Ok line20_second)
    by (vm_compute; reflexivity).
  split; [exact E|].
  destruct (pass_removes_inliers_or_seed svd_axes 3 3 0.01 _ _ E)
    as [W _].
  exact W.
Defined.

(** C7 as stated fails: the caller has no iteration cap to supply.  A run
    on four isolated points makes two passes whatever positive cap the
    caller has in mind, one for instance. *)
Lemma cap_is_not_an_argument :
  exists st : state,
    run svd_axes 0.05 2 0.01 0%nat (on_x_axis 4 0 1) = Ok st
    /\ iter_count st = 2%nat
    /\ ~ (forall cap : nat, (0 < cap)%nat -> (iter_count st <= cap)%nat).
Proof.
  eexists. split; [vm_compute; reflexivity|]. split; [reflexivity|].
  cbn [iter_count]. intros Hall. specialize (Hall 1%nat). lia.
Qed.

Lemma isolated_input_yields_no_segment_witness :
  isolated 0.05 apart10 = true /\ (2 <= 5)%Z
  /\ run_local_ransac svd_fails 0.05 5 0.05 0%nat apart10 = Ok [].
Proof.
  assert (Hiso : isolated 0.05 apart10 = true) by (vm_compute; reflexivity).
  split; [exact Hiso|]. split; [lia|].
  destruct (isolated_input_yields_no_segment svd_fails 0.05 5 0.05 0%nat
              apart10 Hiso) as [st [_ [E _]]]; [lia|exact E].
Defined.

Lemma input_array_is_never_written_witness :
  nth_error (Mem.objects line20_mem) 1 = Some (Mem.Ndarray line20)
  /\ firstn 2 (Mem.objects
                 (fst (Mem.run_local_ransac_mem svd_axes 3 3 0.01 0%nat
                                                1%nat line20_mem)))
     = Mem.objects line20_mem.
Proof.
  assert (Hdata : nth_error (Mem.objects line20_mem) 1
                  = Some (Mem.Ndarray line20)) by reflexivity.
  split; [exact Hdata|].
  destruct (input_array_is_never_written svd_axes 3 3 0.01 0%nat line20_mem
              1%nat line20 Hdata) as [_ [W _]].
  exact W.
Defined.

Lemma every_pass_shrinks_the_pool_witness :
  run svd_axes 3 3 0.01 0%nat line20 = Ok line20_last
  /\ (iter_count line20_last <= length line20)%nat.
Proof.
  assert (E : run svd_axes 3 3 0.01 0%nat line20 = Ok line20_last)
    by (vm_compute; reflexivity).
  split; [exact E|].
  destruct (every_pass_shrinks_the_pool svd_axes 3 3 0.01 0%nat line20
              line20_last E) as [_ [_ [W _]]].
  exact W.
Defined.

(** C8 as stated fails on large inputs: of 5003 points a unit apart, with
    radius 0.05 and two samples, the loop removes 5000 seeds and stops at
    the cap with three points in the pool, more than [min_samples]. *)
Lemma large_isolated_input_is_not_drained :
  isolated 0.05 apart5003 = true
  /\ exists st : state,
       run svd_fails 0.05 2 0.05 0%nat apart5003 = Ok st
       /\ lines st = []
       /\ iter_count st = max_iterations
       /\ length (points st) = 3%nat
       /\ ~ (Z.of_nat (length (points st)) <= 2)%Z.
Proof.
  assert (Hiso : isolated 0.05 apart5003 = true) by (vm_compute; reflexivity).
  split; [exact Hiso|].
  assert (Hlen : length apart5003 = (3 + max_iterations)%nat)
    by (vm_compute; reflexivity).
  destruct (isolated_loop svd_fails 0.05 2 0.05 max_iterations
              (init 0%nat apart5003) Hiso)
    as [st [Erun [Hl [Hg [Hcap [Hsum _]]]]]];
    [lia|apply Nat.le_0_l|apply Nat.le_refl|].
  cbn [init points lines iter_count] in Hl, Hsum. rewrite Hlen in Hsum.
  apply loop_guard_false in Hg.
  exists st. split; [exact Erun|]. split; [exact Hl|].
  assert (Hit : iter_count st = max_iterations) by (destruct Hg; lia).
  split; [exact Hit|]. split; lia.
Qed.

End Runs.

(* ================================================================== *)
(** ** Further properties of the run *)

Section Further.

Context {G : Type} `{RandomState G}.
Variable svd : list point -> option Np.mat3.
Variable neighborhood_radius : float.
Variable min_samples : Z.
Variable threshold : float.

Local Abbreviation state := (@state G).
Local Abbreviation loop_body :=
  (loop_body svd neighborhood_radius min_samples threshold).
Local Abbreviation while_loop :=
  (while_loop svd neighborhood_radius min_samples threshold).
Local Abbreviation loop_guard := (loop_guard min_samples).
Local Abbreviation run := (run svd neighborhood_radius min_samples threshold).
Local Abbreviation run_local_ransac :=
  (run_local_ransac svd neighborhood_radius min_samples threshold).
Local Abbreviation history :=
  (history svd neighborhood_radius min_samples threshold).
Local Abbreviation removed_indices :=
  (removed_indices svd neighborhood_radius min_samples threshold).
Local Abbreviation accepts :=
  (accepts svd neighborhood_radius min_samples threshold).

(** Where an exception of a pass comes from. *)
Lemma loop_body_raise_cause (st : state) (e : exn) :
  loop_guard st = true -> loop_body st = Raise e ->
  (e = LinAlgError /\ exists a, svd a = None)
  \/ (e = ValueError /\ (min_samples <= 0)%Z).
Proof.
  intros Hg. apply loop_guard_true in Hg. destruct Hg as [Hlen _].
  unfold Ransac.loop_body, randint.
  destruct (length (points st) =? 0) eqn:Elen.
  { apply Nat.eqb_eq in Elen. intros E. injection E as <-. right.
    split; [reflexivity|lia]. }
  destruct (draw (rng st) (length (points st))) as [idx g]. cbn [bind].
  destruct (Z.ltb _ _); [discriminate|].
  unfold fit_line_segment, linalg_svd.
  match goal with
  | |- context [svd ?a] => destruct (svd a) as [vv|] eqn:Esvd
  end; cbn [bind].
  2:{ intros E. injection E as <-. left. split; [reflexivity|eauto]. }
  destruct (Z.geb _ _) eqn:Ege; [|discriminate].
  apply Z.geb_le in Ege. revert Ege.
  match goal with
  | |- context [projections (Np.take Np.zero3 ?lp ?inl)] =>
      destruct inl as [|k inl']
  end.
  - simpl. intros Hms E. injection E as <-. right. split; [reflexivity|lia].
  - intros _. simpl. discriminate.
Qed.

Lemma while_loop_raise_cause (fuel : nat) : forall (st : state) e,
  while_loop fuel st = Raise e ->
  (e = LinAlgError /\ exists a, svd a = None)
  \/ (e = ValueError /\ (min_samples <= 0)%Z).
Proof.
  induction fuel as [|fuel IH]; intros st e; simpl;
    destruct (loop_guard st) eqn:Eg; try discriminate.
  destruct (loop_body st) as [st1|e1|] eqn:Eb; cbn [bind];
    try discriminate.
  - apply IH.
  - intros E. injection E as <-. eapply loop_body_raise_cause; eauto.
Qed.

(** Passes and pool never add up to more than at the start. *)
Lemma while_loop_passes (fuel : nat) (st0 st : state) :
  while_loop fuel st0 = Ok st ->
  iter_count st0 <= iter_count st
  /\ iter_count st + length (points st)
     <= iter_count st0 + length (points st0).
Proof.
  intros E.
  destruct (while_loop_ind svd neighborhood_radius min_samples threshold
              (fun s : state =>
                 iter_count st0 <= iter_count s
                 /\ iter_count s + length (points s)
                    <= iter_count st0 + length (points st0)))
    with (fuel := fuel) (st := st0) (st' := st) as [HP _]; auto.
  intros s s' _ [Hi Hs] Eb. pose proof (loop_body_length _ _ _ _ _ _ Eb).
  apply loop_body_ok in Eb. lia.
Qed.

(** X1.  The call returns without a pass exactly when the input has at most
    [min_samples] points: then it returns no segment, whatever the points
    are; and a call that returned after no pass was given such an input. *)
Theorem no_pass_iff_small_input (g : G) (data : list point) :
  ((Z.of_nat (length data) <= min_samples)%Z ->
   run g data = Ok (init g data) /\ run_local_ransac g data = Ok [])
  /\ (forall st : state,
        run g data = Ok st -> iter_count st = 0 ->
        (Z.of_nat (length data) <= min_samples)%Z /\ st = init g data).
Proof.
  split.
  - intros Hn.
    assert (E : run g data = Ok (init g data)).
    { apply while_loop_stop, loop_guard_false. left. exact Hn. }
    split; [exact E|]. unfold Ransac.run_local_ransac.
    unfold Ransac.run in E |- *. rewrite E. reflexivity.
  - intros st Erun Hit. unfold Ransac.run in Erun.
    destruct (loop_guard (init g data)) eqn:Eg.
    + exfalso. change max_iterations with (S 4999) in Erun.
      rewrite while_loop_pass in Erun by exact Eg.
      destruct (loop_body (init g data)) as [s1| |] eqn:Eb;
        cbn [bind] in Erun; try discriminate.
      apply while_loop_passes in Erun. apply loop_body_ok in Eb.
      cbn [init iter_count] in Eb. lia.
    + rewrite while_loop_stop in Erun by exact Eg. injection Erun as <-.
      split; [|reflexivity]. apply loop_guard_false in Eg.
      destruct Eg as [Hn|Hcap]; [exact Hn|].
      cbn [init iter_count] in Hcap. unfold max_iterations in Hcap. lia.
Qed.

(** X2.  An exception of the call is LinAlgError, and then the
    decomposition failed on some array, or it is ValueError, and then
    [min_samples] is below one.  So with [min_samples] at least one and a
    decomposition that always converges the call returns. *)
Theorem exceptions_have_two_causes (g : G) (data : list point) :
  (forall e, run_local_ransac g data = Raise e ->
             (e = LinAlgError /\ exists a, svd a = None)
             \/ (e = ValueError /\ (min_samples <= 0)%Z))
  /\ ((1 <= min_samples)%Z -> (forall a, svd a <> None) ->
      exists segments, run_local_ransac g data = Ok segments).
Proof.
  unfold Ransac.run_local_ransac.
  split.
  - intros e. destruct (Ransac.run _ _ _ _ g data) as [st|e'|] eqn:Erun;
      cbn [bind]; try discriminate.
    intros E. injection E as <-.
    apply (while_loop_raise_cause _ _ _ Erun).
  - intros Hms Hsvd.
    destruct (Ransac.run _ _ _ _ g data) as [st|e|] eqn:Erun; cbn [bind].
    + eauto.
    + exfalso.
      destruct (while_loop_raise_cause _ _ _ Erun) as [[_ [a Ha]]|[_ Hle]];
        [now apply (Hsvd a)|lia].
    + exfalso. revert Erun. apply while_loop_fuel. simpl. lia.
Qed.

(** X3.  With a negative [min_samples] the size test of the guard always
    passes, so only the cap can end the loop: on fewer than 5000 points the
    call never returns, it ends in an exception; on an empty input that is
    the ValueError of the draw from an empty pool. *)
Theorem negative_min_samples_raises (g : G) (data : list point) :
  (min_samples < 0)%Z -> length data < max_iterations ->
  exists e, run_local_ransac g data = Raise e
            /\ (data = [] -> e = ValueError).
Proof.
  intros Hms Hn. unfold Ransac.run_local_ransac.
  destruct (Ransac.run _ _ _ _ g data) as [st|e|] eqn:Erun; cbn [bind].
  - exfalso. unfold Ransac.run in Erun.
    destruct (while_loop_ind svd neighborhood_radius min_samples threshold
                (fun _ => True)) with (fuel := max_iterations)
      (st := init g data) (st' := st) as [_ Hg]; auto.
    apply while_loop_passes in Erun. cbn [init iter_count points] in Erun.
    apply loop_guard_false in Hg. destruct Hg; lia.
  - exists e. split; [reflexivity|]. intros ->. revert Erun.
    unfold Ransac.run. change max_iterations with (S 4999).
    rewrite while_loop_pass.
    + unfold Ransac.loop_body, randint. simpl. congruence.
    + apply loop_guard_true. simpl. unfold max_iterations. lia.
  - exfalso. revert Erun. apply while_loop_fuel. simpl. lia.
Qed.

Lemma segments_of_length (evs : list event) :
  length (segments_of evs) <= length evs.
Proof.
  induction evs as [|ev evs IH]; simpl; [lia|].
  destruct (ev_segment ev); simpl; lia.
Qed.

(** X4.  Segments are only ever appended, at most one per pass: the list
    after more passes of a run is the list after fewer passes followed by
    the segments found since, and it never holds more segments than passes
    were made. *)
Theorem segments_are_only_appended
  (g : G) (data : list point) (fuel k : nat)
  (evs1 evs2 : list event) (ids1 ids2 : list nat) (st1 st2 : state) :
  history fuel (init g data) (seq 0 (length data)) = (evs1, ids1, st1) ->
  history (fuel + k) (init g data) (seq 0 (length data))
  = (evs2, ids2, st2) ->
  (exists l, lines st2 = lines st1 ++ l
             /\ length l <= iter_count st2 - iter_count st1)
  /\ iter_count st1 = length evs1
  /\ iter_count st1 <= iter_count st2
  /\ length (lines st1) <= iter_count st1.
Proof.
  intros E1 E2.
  assert (Hpool : points (init g data)
                  = Np.take Np.zero3 data (seq 0 (length data)))
    by (symmetry; apply take_seq).
  destruct (history_inv svd neighborhood_radius min_samples threshold data
              fuel _ _ _ _ _ Hpool E1) as [_ [Hp1 [Hl1 [_ [Hi1 _]]]]].
  destruct (history k st1 ids1) as [[evs ids] st] eqn:Ek.
  rewrite (history_app svd neighborhood_radius min_samples threshold
             fuel k _ _ _ _ _ _ _ _ E1 Ek) in E2.
  injection E2 as <- <- <-.
  destruct (history_inv svd neighborhood_radius min_samples threshold data
              k _ _ _ _ _ Hp1 Ek) as [_ [_ [Hl2 [_ [Hi2 _]]]]].
  cbn [init lines iter_count] in Hl1, Hi1.
  pose proof (segments_of_length evs). pose proof (segments_of_length evs1).
  split; [exists (segments_of evs); split; [exact Hl2|lia]|].
  split; [exact Hi1|]. split; [lia|]. rewrite Hl1. simpl. lia.
Qed.

(** X7.  A pass that accepts a fit with a single inlier, which takes a
    [min_samples] of at most one, appends a segment whose two endpoints are
    the same point. *)
Theorem single_inlier_segment_is_a_point (st st' : state) :
  loop_body st = Ok st' -> accepts st = true ->
  length (removed_indices st) = 1 ->
  (min_samples <= 1)%Z /\ exists p, lines st' = lines st ++ [(p, p)].
Proof.
  intros Eb Hacc Hone. apply loop_body_cases in Eb.
  destruct Eb as [_ [_ [_ Hc]]].
  unfold Ransac.accepts in Hacc. unfold Ransac.removed_indices in Hone.
  destruct Hc as [[En _]|[En [mean [dir [Efit Hc]]]]];
    rewrite En in Hacc, Hone; [discriminate|].
  rewrite Efit in Hacc, Hone. cbn [negb andb] in Hacc.
  rewrite Hacc in Hone.
  destruct Hc as [[Ee [seg [Eseg [_ Hl]]]]|[Ee _]]; [|congruence].
  rewrite inlier_rows_length in Hone.
  split.
  { unfold Ransac.enough_inliers in Ee. apply Z.geb_le in Ee. lia. }
  revert Eseg.
  destruct (inliers_idx threshold _ mean dir) as [|k [|k' l]];
    try discriminate Hone.
  unfold segment_of, projections. simpl. intros E. injection E as <-.
  rewrite Hl. eauto.
Qed.

(** X9.  Every row that an accepting pass takes out of the pool is a point
    of the pool closer to the seed than the radius and closer to the fitted
    line than the threshold. *)
Theorem removed_inliers_are_near_seed_and_line (st st' : state) :
  loop_body st = Ok st' -> accepts st = true ->
  exists mean direction,
    fit_line_segment svd (local_points_of neighborhood_radius st)
    = Ok (mean, direction)
    /\ forall i,
         In i (removed_indices st) ->
         exists p,
           nth_error (points st) i = Some p
           /\ (Np.norm (Np.sub3 p (seed_of st)) <? neighborhood_radius)%float
              = true
           /\ (Np.norm (Np.cross (Np.sub3 p mean) direction)
               <? threshold)%float = true.
Proof.
  intros Eb Hacc. apply loop_body_cases in Eb.
  destruct Eb as [_ [_ [_ Hc]]].
  unfold Ransac.accepts in Hacc. unfold Ransac.removed_indices.
  destruct Hc as [[En _]|[En [mean [dir [Efit _]]]]];
    rewrite En in Hacc |- *; [discriminate|].
  rewrite Efit in Hacc |- *. cbn [negb andb] in Hacc. rewrite Hacc.
  exists mean, dir. split; [reflexivity|]. intros i Hi.
  apply inlier_rows_In in Hi. destruct Hi as [k [Ek Hk]].
  assert (Hnb : In i (neighbourhood neighborhood_radius st))
    by (eapply nth_error_In; eauto).
  unfold Ransac.neighbourhood in Hnb.
  apply local_indices_In in Hnb. destruct Hnb as [p [Ep Hp]].
  exists p. split; [exact Ep|]. split; [exact Hp|].
  apply inliers_idx_In in Hk. destruct Hk as [q [Eq Hq]].
  unfold Ransac.local_points_of, Np.take in Eq.
  rewrite nth_error_map in Eq.
  fold (neighbourhood neighborhood_radius st) in Eq. rewrite Ek in Eq.
  simpl in Eq. injection Eq as <-.
  rewrite (nth_error_nth _ _ Np.zero3 Ep) in Hq. exact Hq.
Qed.

End Further.

(* ================================================================== *)
(** ** The arrays the decomposition is asked about *)

Section Decomposition.

Context {G : Type} `{RandomState G}.
Variables svd svd' : list point -> option Np.mat3.
Variable neighborhood_radius : float.
Variable min_samples : Z.
Variable threshold : float.

Hypothesis agree :
  forall a, (min_samples <= Z.of_nat (length a))%Z -> svd a = svd' a.

Lemma loop_body_same_decomposition (st : @state G) :
  loop_body svd neighborhood_radius min_samples threshold st
  = loop_body svd' neighborhood_radius min_samples threshold st.
Proof.
  unfold loop_body, randint.
  destruct (length (points st) =? 0); [reflexivity|].
  destruct (draw (rng st) (length (points st))) as [idx g]. cbn [bind].
  destruct (Z.ltb _ _) eqn:En; [reflexivity|].
  apply Z.ltb_ge in En.
  unfold fit_line_segment, linalg_svd. rewrite agree; [reflexivity|].
  now rewrite length_map, NpFacts.take_length.
Qed.

Lemma while_loop_same_decomposition (fuel : nat) : forall st : @state G,
  while_loop svd neighborhood_radius min_samples threshold fuel st
  = while_loop svd' neighborhood_radius min_samples threshold fuel st.
Proof.
  induction fuel as [|fuel IH]; intros st; simpl; [reflexivity|].
  destruct (loop_guard min_samples st); [|reflexivity].
  rewrite loop_body_same_decomposition.
  destruct (loop_body svd' neighborhood_radius min_samples threshold st);
    cbn [bind]; [apply IH|reflexivity|reflexivity].
Qed.

(** X8.  The decomposition is only ever asked about arrays of at least
    [min_samples] rows: two decompositions that agree on those give the
    same outcome of the call, segments or exception. *)
Theorem small_arrays_are_never_decomposed (g : G) (data : list point) :
  run_local_ransac svd neighborhood_radius min_samples threshold g data
  = run_local_ransac svd' neighborhood_radius min_samples threshold g data.
Proof.
  unfold run_local_ransac, run.
  now rewrite while_loop_same_decomposition.
Qed.

End Decomposition.

(* ================================================================== *)
(** ** The script *)

Module ScriptFacts.

Import Script.

Lemma stride_from_nth_error {A : Type} (step : nat) (a : list A) :
  1 <= step ->
  forall skip i,
    nth_error (stride_from skip step a) i = nth_error a (skip + i * step).
Proof.
  intros Hstep. induction a as [|x a IH]; intros skip i; simpl.
  - now rewrite !nth_error_nil.
  - destruct skip as [|skip].
    + destruct i as [|i]; simpl; [reflexivity|].
      rewrite IH. replace (step + i * step) with (S (step - 1 + i * step))
        by lia. reflexivity.
    + rewrite IH. reflexivity.
Qed.

Lemma stride_from_length {A : Type} (step : nat) (a : list A) :
  1 <= step ->
  forall skip,
    length (stride_from skip step a)
    = (length a - skip + (step - 1)) / step.
Proof.
  intros Hstep. induction a as [|x a IH]; intros skip; simpl.
  - symmetry. apply Nat.div_small. lia.
  - destruct skip as [|skip]; simpl; [|apply IH].
    rewrite IH.
    replace (S (length a + (step - 1))) with (length a + 1 * step) by lia.
    rewrite Nat.div_add by lia.
    destruct (Nat.le_gt_cases (step - 1) (length a)) as [Hle|Hgt].
    + replace (length a - (step - 1) + (step - 1)) with (length a) by lia.
      lia.
    + replace (length a - (step - 1) + (step - 1)) with (step - 1) by lia.
      rewrite !Nat.div_small by lia. reflexivity.
Qed.

Lemma stride_one {A : Type} (a : list A) : stride 1 a = a.
Proof.
  unfold stride. induction a as [|x a IH]; simpl; [reflexivity|].
  now f_equal.
Qed.

(** X5.  The scatter plot shows the whole cloud while it has fewer than
    10000 points; from 10000 points on it shows every fifth point, starting
    with the first: point [i] of the plot is point [5 i] of the cloud, and
    the plot has the number of points divided by five, rounded up. *)
Theorem scatter_shows_every_fifth_point (data : list point) :
  exists shown,
    scatter_of data
    = Scatter (map Np.vx shown) (map Np.vy shown) (map Np.vz shown)
    /\ (length data < thin_from -> shown = data)
    /\ (thin_from <= length data ->
        length shown = (length data + 4) / 5
        /\ forall i, nth_error shown i = nth_error data (5 * i)).
Proof.
  exists (stride (step_of data) data). split; [reflexivity|].
  unfold step_of. split.
  - intros Hlt. apply Nat.ltb_lt in Hlt. rewrite Hlt. apply stride_one.
  - intros Hge. apply Nat.ltb_ge in Hge. rewrite Hge. unfold stride. split.
    + rewrite stride_from_length by lia. f_equal. lia.
    + intros i. rewrite stride_from_nth_error by lia. f_equal. lia.
Qed.

Section MainFacts.

Context {G : Type} `{RandomState G}.
Variable svd : list point -> option Np.mat3.

(** X6.  The script never ends on an exception of the loader or of the
    extraction.  A missing file gives the two lines of lines 127-128.  With
    the cloud loaded, the extraction is called with [min_samples = 8], so
    its only possible exception is the LinAlgError of a decomposition that
    failed: it is caught and reported, and nothing is drawn.  Otherwise the
    script prints the number of segments, draws the cloud and one line per
    segment, in their order, and titles the figure with the same number. *)
Theorem script_reports_or_draws (g : G) (file : loaded) :
  match file with
  | File_not_found =>
      main svd g file = [Print_searching; Print_missing; Print_hint]
  | Load_error =>
      main svd g file = [Print_searching; Print_unexpected From_loader]
  | Data data =>
      ((exists a, svd a = None)
       /\ found_lines svd g data = Raise LinAlgError
       /\ main svd g file
          = [Print_searching; Print_loaded (length data); Print_starting;
             Print_unexpected (From_run LinAlgError)])
      \/ (exists lines,
            found_lines svd g data = Ok lines
            /\ main svd g file
               = [Print_searching; Print_loaded (length data);
                  Print_starting; Print_found (length lines); Figure;
                  scatter_of data]
                 ++ map plot_of lines
                 ++ [Labels; Title (length lines); Show])
  end.
Proof.
  destruct file as [| |data]; try reflexivity.
  unfold main.
  destruct (found_lines svd g data) as [lines|e|] eqn:Ef.
  - right. exists lines. split; reflexivity.
  - left. unfold found_lines, run_local_ransac in Ef.
    destruct (run svd 2 8 0.05 g data) as [st|e'|] eqn:Erun;
      cbn [bind] in Ef; try discriminate.
    injection Ef as <-.
    destruct (while_loop_raise_cause _ _ _ _ _ _ _ Erun)
      as [[-> Ha]|[_ Hle]]; [|lia].
    split; [exact Ha|]. split; reflexivity.
  - exfalso. unfold found_lines, run_local_ransac in Ef.
    destruct (run svd 2 8 0.05 g data) as [st|e|] eqn:Erun;
      cbn [bind] in Ef; try discriminate.
    revert Erun. apply while_loop_fuel. simpl. lia.
Qed.

End MainFacts.

End ScriptFacts.

(* ================================================================== *)
(** ** The further properties on concrete runs *)

Module FurtherRuns.

Import Np Demo Runs.
Local Open Scope float_scope.

(** Three points a unit apart. *)
Definition apart3 : list point := on_x_axis 3 0 1.

Definition apart3_first : state := init 0%nat apart3.

Definition apart3_second : state :=
  Eval vm_compute in
    match loop_body svd_axes 0.05 1 0.05 apart3_first with
    | Ok st => st
    | _ => apart3_first
    end.

Definition line20_two : list event * list nat * state :=
  Eval vm_compute in history svd_axes 3 3 0.01 2 line20_first (seq 0 20).

(** A decomposition that refuses arrays of fewer than three rows. *)
Definition svd_picky (a : list point) : option mat3 :=
  if (length a <? 3)%nat then None else svd_axes a.

Lemma negative_min_samples_raises_witness :
  (-1 < 0)%Z /\ (length apart3 < max_iterations)%nat
  /\ exists e, run_local_ransac svd_axes 0.05 (-1) 0.05 0%nat apart3
               = Raise e.
Proof.
  assert (Hms : (-1 < 0)%Z) by lia.
  assert (Hn : (length apart3 < max_iterations)%nat)
    by (apply Nat.ltb_lt; vm_compute; reflexivity).
  split; [exact Hms|]. split; [exact Hn|].
  destruct (negative_min_samples_raises svd_axes 0.05 (-1) 0.05 0%nat
              apart3 Hms Hn) as [e [E _]].
  exists e. exact E.
Defined.

Lemma segments_are_only_appended_witness :
  history svd_axes 3 3 0.01 2 (init 0%nat line20) (seq 0 (length line20))
  = (fst (fst line20_two), snd (fst line20_two), snd line20_two)
  /\ history svd_axes 3 3 0.01 (2 + 3) (init 0%nat line20)
             (seq 0 (length line20))
     = (line20_events, line20_left, line20_last)
  /\ exists l, lines line20_last = lines (snd line20_two) ++ l.
Proof.
  assert (E1 : history svd_axes 3 3 0.01 2 (init 0%nat line20)
                       (seq 0 (length line20))
               = (fst (fst line20_two), snd (fst line20_two),
                  snd line20_two)) by (vm_compute; reflexivity).
  assert (E2 : history svd_axes 3 3 0.01 (2 + 3) (init 0%nat line20)
                       (seq 0 (length line20))
               = (line20_events, line20_left, line20_last))
    by (vm_compute; reflexivity).
  split; [exact E1|]. split; [exact E2|].
  destruct (segments_are_only_appended svd_axes 3 3 0.01 0%nat line20 2 3
              _ _ _ _ _ _ E1 E2) as [[l [W _]] _].
  exists l. exact W.
Defined.

Lemma single_inlier_segment_is_a_point_witness :
  loop_body svd_axes 0.05 1 0.05 apart3_first = Ok apart3_second
  /\ accepts svd_axes 0.05 1 0.05 apart3_first = true
  /\ length (removed_indices svd_axes 0.05 1 0.05 apart3_first) = 1%nat
  /\ exists p, lines apart3_second = lines apart3_first ++ [(p, p)].
Proof.
  assert (E : loop_body svd_axes 0.05 1 0.05 apart3_first = Ok apart3_second)
    by (vm_compute; reflexivity).
  assert (A : accepts svd_axes 0.05 1 0.05 apart3_first = true)
    by (vm_compute; reflexivity).
  assert (L : length (removed_indices svd_axes 0.05 1 0.05 apart3_first)
              = 1%nat) by (vm_compute; reflexivity).
  split; [exact E|]. split; [exact A|]. split; [exact L|].
  destruct (single_inlier_segment_is_a_point svd_axes 0.05 1 0.05
              apart3_first apart3_second E A L) as [_ W].
  exact W.
Defined.

Lemma svd_picky_agrees (a : list point) :
  (3 <= Z.of_nat (length a))%Z -> svd_axes a = svd_picky a.
Proof.
  intros Hlen. unfold svd_picky.
  destruct (length a <? 3)%nat eqn:E; [|reflexivity].
  apply Nat.ltb_lt in E. lia.
Defined.

Lemma small_arrays_are_never_decomposed_witness :
  (forall a, (3 <= Z.of_nat (length a))%Z -> svd_axes a = svd_picky a)
  /\ run_local_ransac svd_axes 3 3 0.01 0%nat line20
     = run_local_ransac svd_picky 3 3 0.01 0%nat line20.
Proof.
  split; [exact svd_picky_agrees|].
  exact (small_arrays_are_never_decomposed svd_axes svd_picky 3 3 0.01
           svd_picky_agrees 0%nat line20).
Defined.

Lemma removed_inliers_are_near_seed_and_line_witness :
  loop_body svd_axes 3 3 0.01 line20_first = Ok line20_second
  /\ accepts svd_axes 3 3 0.01 line20_first = true
  /\ exists mean direction,
       fit_line_segment svd_axes (local_points_of 3 line20_first)
       = Ok (mean, direction).
Proof.
  assert (E : loop_body svd_axes 3 3 0.01 line20_first = Ok line20_second)
    by (vm_compute; reflexivity).
  assert (A : accepts svd_axes 3 3 0.01 line20_first = true)
    by (vm_compute; reflexivity).
  split; [exact E|]. split; [exact A|].
  destruct (removed_inliers_are_near_seed_and_line svd_axes 3 3 0.01
              line20_first line20_second E A) as [mean [direction [W _]]].
  exists mean, direction. exact W.
Defined.

End FurtherRuns.
